(** * proxy: a SOCKS5 proxy with a domain blacklist

    A shallow embedding of the Go packages [filter] (blacklist matcher and
    its loaders) and [socks5] (inbound handshake parser, outbound relay
    state machine, splice), followed by the properties proved about them.

    Conventions.
    - A Go [string] and a Go [[]byte] are both [list byte].
    - A Go [int] is a [Z]; arithmetic that the code performs on it is
      wrapped to 64 bits with [wrap_int] ([uint64] with [wrap_uint64]).
    - Receivers passed by pointer are threaded explicitly: a method
      returns its results together with the new value of the receiver.
    - A run-time panic is the [Panic] constructor of [outcome]. *)

From Stdlib Require Import ZArith List Lia Strings.Byte Strings.String DecimalString.
From stdpp Require Import base numbers list.

Open Scope Z_scope.

(** ** The Go runtime and the standard packages the program calls *)
Module golang.

Abbreviation gostring := (list byte).

(** A string literal of the source. *)
Definition str (s : string) : gostring := list_byte_of_string s.

(** [int(b)] for a byte [b]. *)
Definition int_of_byte (b : byte) : Z := Z.of_N (Byte.to_N b).

(** [byte(z)]: conversion of an integer to a byte keeps the low 8 bits. *)
Definition byte_of_int (z : Z) : byte :=
  match Byte.of_N (Z.to_N (z mod 256)) with
  | Some b => b
  | None => x00
  end.

(** Signed 64-bit wrap-around of [int]. *)
Definition wrap_int (z : Z) : Z := (z + 2 ^ 63) mod 2 ^ 64 - 2 ^ 63.

(** Unsigned 64-bit wrap-around of [uint64]. *)
Definition wrap_uint64 (z : Z) : Z := z mod 2 ^ 64.

(** The builtin [len]. *)
Definition len {A} (l : list A) : Z := Z.of_nat (length l).

(** [string(c)] for a byte-typed integer [c]: the UTF-8 encoding of the
    code point [c] (one byte below 0x80, two bytes from 0x80 to 0xFF). *)
Definition string_of_rune (c : byte) : gostring :=
  let v := int_of_byte c in
  if v <? 128 then [c]
  else [byte_of_int (Z.lor 192 (Z.shiftr v 6));
      byte_of_int (Z.lor 128 (Z.land v 63))].

(** Run-time errors that abort the goroutine: an index out of range, a
    method called on a nil interface value. *)
Inductive panic :=
| IndexOutOfRange (index length : Z)
| NilDereference.

Inductive outcome (A : Type) :=
  | Ok (a : A)
  | Panic (p : panic).
Arguments Ok {A} a.
Arguments Panic {A} p.

(** The Unicode case tables are data of the Go distribution; they enter
    as a parameter: [map_unicode_ToLower s] is
    [strings.Map(unicode.ToLower, s)]. *)
Class Unicode := { map_unicode_ToLower : gostring -> gostring }.

(** *** package strings *)
Module strings.

Definition isASCII (s : gostring) : bool :=
  forallb (fun c => int_of_byte c <? 128) s.

Definition lower_byte (c : byte) : byte :=
  if (65 <=? int_of_byte c) && (int_of_byte c <=? 90)
  then byte_of_int (int_of_byte c + 32)
  else c.

(** [strings.ToLower]: ASCII-only strings take the byte loop (which
    returns [s] itself when there is no upper-case letter), all others
    go through the Unicode tables. *)
Definition ToLower `{Unicode} (s : gostring) : gostring :=
  if isASCII s then map lower_byte s else map_unicode_ToLower s.

(** [strings.Compare]: three-way lexicographic comparison of bytes. *)
Fixpoint Compare (a b : gostring) : Z :=
  match a, b with
  | [], [] => 0
  | [], _ :: _ => -1
  | _ :: _, [] => 1
  | x :: a', y :: b' =>
      if int_of_byte x <? int_of_byte y then -1
      else if int_of_byte y <? int_of_byte x then 1
      else Compare a' b'
  end.

Fixpoint trimLeftByte (s : gostring) (c : byte) : gostring :=
  match s with
  | [] => []
  | x :: s' => if Byte.eqb x c then trimLeftByte s' c else s
  end.

Definition trimRightByte (s : gostring) (c : byte) : gostring :=
  rev (trimLeftByte (rev s) c).

(** [strings.Trim(s, cutset)] for a cutset of one ASCII byte [c], the
    only way the program calls it. *)
Definition Trim (s : gostring) (c : byte) : gostring :=
  trimLeftByte (trimRightByte s c) c.

Fixpoint genSplit (s : gostring) (sep : byte) (field : gostring) : list gostring :=
  match s with
  | [] => [field]
  | x :: s' =>
      if Byte.eqb x sep then field :: genSplit s' sep []
      else genSplit s' sep (field ++ [x])
  end.

(** [strings.Split(s, sep)] for a separator of one byte. *)
Definition Split (s : gostring) (sep : byte) : list gostring :=
  genSplit s sep [].

End strings.

(** *** package strconv *)
Module strconv.
Definition Itoa (i : Z) : gostring :=
  str (NilZero.string_of_int (Z.to_int i)).
End strconv.

(** *** package encoding/hex *)
Module hex.
Definition hextable : gostring := str "0123456789abcdef".

Definition digit (v : Z) : byte := nth (Z.to_nat v) hextable x00.

Definition EncodeToString (src : list byte) : gostring :=
  flat_map (fun b => [digit (Z.shiftr (int_of_byte b) 4);
                      digit (Z.land (int_of_byte b) 15)]) src.
End hex.

End golang.

(** ** package filter *)
Module filter.
Import golang.

(** What the operating system answers when a file is opened, its size
    taken and its contents read in one call. *)
Inductive FileOutcome :=
| OpenFails
| StatFails
| ReadFails
| Contents (data : list byte).

(** What [http.Get] followed by [ioutil.ReadAll] on the body answers. *)
Inductive HTTPOutcome :=
| GetFails
| ReadAllFails
| Body (body : list byte).

(** DomainEntry for tracking each domain, rules, and hit count. *)
Record DomainEntry := { Name : gostring; Hits : Z }.

(** Filter struct containing a list of domains. *)
Record Filter := { Domains : list DomainEntry; FileName : gostring }.

(** The world outside the process: the file system, the network and the
    JSON decoder of the Go distribution. [json_Unmarshal data v] is
    [json.Unmarshal(data, &v)]: the new value of [v] and whether an error
    was returned. *)
Class World := {
  os_file : gostring -> FileOutcome;
  http_fetch : gostring -> HTTPOutcome;
  json_Unmarshal : list byte -> list DomainEntry -> list DomainEntry * bool
}.

(** [DomainEntry.Matches]. The difference of two lengths cannot leave the
    range of [int]. *)
Definition DomainEntry_Matches (entry : DomainEntry) (item : gostring) : bool :=
  let substr := len item - len (Name entry) in
  if substr <? 0 then false
  else
    let item := drop (Z.to_nat substr) item in
    if strings.Compare (Name entry) item =? 0 then true else false.

(** The result of [Filter.Matches]: the returned boolean, the receiver
    after the call, and the last value of the loop variable
    [domainEntry]. The [range] clause copies each element of
    [ctx.Domains] into that variable. *)
Record MatchesResult := {
  blocked : bool;
  receiver : Filter;
  loopvar : option DomainEntry
}.

Section WithUnicode.
Context `{Unicode}.

Fixpoint Matches_range (ctx : Filter) (rest : list DomainEntry) (item : gostring)
    (last : option DomainEntry) : MatchesResult :=
  match rest with
  | [] => {| blocked := false; receiver := ctx; loopvar := last |}
  | domainEntry :: rest' =>
      if DomainEntry_Matches domainEntry (strings.ToLower item) then
        let domainEntry :=
          {| Name := Name domainEntry; Hits := wrap_int (Hits domainEntry + 1) |} in
        {| blocked := true; receiver := ctx; loopvar := Some domainEntry |}
      else Matches_range ctx rest' item (Some domainEntry)
  end.

(** [Filter.Matches]. *)
Definition Filter_Matches (ctx : Filter) (item : gostring) : MatchesResult :=
  Matches_range ctx (Domains ctx) item None.

End WithUnicode.

(** The inner loop of [deduplicate]: the final value of [add]. *)
Fixpoint deduplicate_add (domainEntry : DomainEntry) (rest : list DomainEntry) : bool :=
  match rest with
  | [] => true
  | domainEntryCompare :: rest' =>
      if DomainEntry_Matches domainEntry (Name domainEntryCompare) then false
      else deduplicate_add domainEntry rest'
  end.

(** The outer loop of [deduplicate] over [ctx.Domains[i:]]. *)
Fixpoint deduplicate_range (domains : list DomainEntry) (newlist : list DomainEntry)
    : list DomainEntry :=
  match domains with
  | [] => newlist
  | domainEntry :: rest =>
      if deduplicate_add domainEntry rest
      then deduplicate_range rest (newlist ++ [domainEntry])
      else deduplicate_range rest newlist
  end.

Definition deduplicate (ctx : Filter) : Filter :=
  {| Domains := deduplicate_range (Domains ctx) []; FileName := FileName ctx |}.

Section WithWorld.
Context `{Unicode} `{World}.

(** [Filter.LoadFile]. *)
Definition LoadFile (ctx : Filter) (file : gostring) : bool * Filter :=
  let ctx := {| Domains := Domains ctx; FileName := file |} in
  match os_file file with
  | OpenFails => (false, ctx)
  | StatFails => (false, ctx)
  | ReadFails => (false, ctx)
  | Contents data =>
      let '(domains, err) := json_Unmarshal data (Domains ctx) in
      let ctx := {| Domains := domains; FileName := FileName ctx |} in
      if err then (false, ctx)
      else (true, deduplicate ctx)
  end.

(** The first loop of [LoadListFile] and [LoadHTTP]: cut the bytes into
    lines. Whatever [temp] holds when the bytes run out is not used. *)
Fixpoint split_lines (data : list byte) (temp : gostring) (list_ : list gostring)
    (count : Z) : list gostring * Z :=
  match data with
  | [] => (list_, count)
  | char :: data' =>
      if negb (Byte.eqb char x0a) && negb (Byte.eqb char x0d) then
        split_lines data' (temp ++ string_of_rune char) list_ count
      else if len temp =? 0 then split_lines data' temp list_ count
      else
        let temp := strings.ToLower temp in
        if len temp >? 0 then split_lines data' [] (list_ ++ [temp]) (wrap_int (count + 1))
        else split_lines data' temp list_ count
  end.

(** The second loop: turn each line into an entry. [line[0]] on an empty
    string panics. *)
Fixpoint parse_lines (list_ : list gostring) (domains : list DomainEntry)
    : outcome (list DomainEntry) :=
  match list_ with
  | [] => Ok domains
  | line :: rest =>
      if len line =? 0 then parse_lines rest domains
      else
        let line := strings.ToLower (strings.Trim line x20) in
        match line with
        | [] => Panic (IndexOutOfRange 0 0)
        | c :: _ =>
            if Byte.eqb c x23 then parse_lines rest domains
            else
              let elements := strings.Split line x20 in
              let line :=
                if len elements >? 1
                then nth (Z.to_nat (len elements - 1)) elements []
                else line in
              parse_lines rest (domains ++ [{| Name := line; Hits := 0 |}])
        end
  end.

(** Whether the second loop skips [line] as a comment: trimmed and in
    lower case it starts with [#]. *)
Definition is_comment_line (line : gostring) : bool :=
  match strings.ToLower (strings.Trim line x20) with
  | [] => false
  | c :: _ => Byte.eqb c x23
  end.

(** The part [LoadListFile] and [LoadHTTP] share, from the bytes read to
    the return. *)
Definition load_lines (ctx : Filter) (data : list byte) : outcome (bool * Z * Filter) :=
  let '(list_, count) := split_lines data [] [] 0 in
  match parse_lines list_ (Domains ctx) with
  | Panic p => Panic p
  | Ok domains =>
      Ok (true, count, deduplicate {| Domains := domains; FileName := FileName ctx |})
  end.

(** [Filter.LoadListFile]. *)
Definition LoadListFile (ctx : Filter) (file : gostring) : outcome (bool * Z * Filter) :=
  match os_file file with
  | OpenFails => Ok (false, 0, ctx)
  | StatFails => Ok (false, 0, ctx)
  | ReadFails => Ok (false, 0, ctx)
  | Contents data => load_lines ctx data
  end.

(** [Filter.LoadHTTP]. *)
Definition LoadHTTP (ctx : Filter) (url : gostring) : outcome (bool * Z * Filter) :=
  match http_fetch url with
  | GetFails => Ok (false, 0, ctx)
  | ReadAllFails => Ok (false, 0, ctx)
  | Body body => load_lines ctx body
  end.

End WithWorld.

End filter.

(** ** package socks5 *)
Module socks5.
Import golang.

(** The errors the handshake code can see or create. [transport_error]
    stands for any error of a connection other than end of stream. *)
Inductive error :=
| io_EOF
| transport_error
| invalid_data (state : Z) (from : gostring)
| method_not_supported (host : gostring)
| authentication_failed (host : gostring) (code : byte)
| command_failed (code : byte)
| credentials_too_long (host : gostring).

(** A [bufio.Reader] over a connection: the bytes the peer still delivers
    and the error that follows them ([io_EOF] when the peer closes). *)
Record Reader := { pending : list byte; closing : error }.

(** A [bufio.Writer] over a connection: the bytes accepted but not yet
    flushed, the bytes flushed to the peer, whether the transport refuses
    writes, and the sticky error of the writer. The handshake messages
    stay below the buffer size, so a [Write] never flushes by itself. *)
Record Writer := {
  unflushed : list byte;
  wire : list byte;
  broken : bool;
  werr : bool
}.

Definition Writer_Write (w : Writer) (p : list byte) : Writer * option error :=
  if werr w then (w, Some transport_error)
  else ({| unflushed := unflushed w ++ p; wire := wire w;
           broken := broken w; werr := werr w |}, None).

Definition Writer_Flush (w : Writer) : Writer * option error :=
  if werr w then (w, Some transport_error)
  else if len (unflushed w) =? 0 then (w, None)
  else if broken w then
    ({| unflushed := unflushed w; wire := wire w;
        broken := broken w; werr := true |}, Some transport_error)
  else
    ({| unflushed := []; wire := wire w ++ unflushed w;
        broken := broken w; werr := werr w |}, None).

(** Consecutive [Write] calls, each followed by [if err != nil], then
    [Flush]: the first error ends the sequence. *)
Fixpoint Writer_send (w : Writer) (chunks : list (list byte)) : Writer * option error :=
  match chunks with
  | [] => Writer_Flush w
  | p :: chunks' =>
      match Writer_Write w p with
      | (w, Some e) => (w, Some e)
      | (w, None) => Writer_send w chunks'
      end
  end.

(** Consecutive [Write] calls whose results are discarded, then [Flush]. *)
Definition Writer_send_unchecked (w : Writer) (chunks : list (list byte)) : Writer :=
  fst (Writer_Flush (fold_left (fun w p => fst (Writer_Write w p)) chunks w)).

(** Everything the writer has accepted so far. *)
Definition accepted (w : Writer) : list byte := wire w ++ unflushed w.

(** [io.Copy(dst, src)]: move what [src] delivers to [dst] until [src]
    ends; the byte count and the error ([nil] at end of stream). The copy
    writes through to the transport of [dst], behind what the writer had
    not flushed yet. A writer in error takes nothing; a transport that
    refuses writes fails the first write, so that nothing is written, the
    bytes read for it are lost and the write error is returned; with
    nothing to move no write is attempted. *)
Definition io_Copy (dst : Writer) (src : Reader) : Z * option error * Writer * Reader :=
  if werr dst then (0, Some transport_error, dst, src)
  else
    let data := pending src in
    let drained := {| pending := []; closing := closing src |} in
    if len data =? 0 then
      (0, match closing src with io_EOF => None | e => Some e end, dst, drained)
    else if broken dst then
      (0, Some transport_error,
       {| unflushed := unflushed dst; wire := wire dst;
          broken := broken dst; werr := true |},
       drained)
    else
      (len data,
       match closing src with io_EOF => None | e => Some e end,
       {| unflushed := []; wire := wire dst ++ unflushed dst ++ data;
          broken := broken dst; werr := werr dst |},
       drained).

(** ProxyInfo for outbound SOCKS5 servers. *)
Module ProxyInfo.
Record t := {
  Host : gostring;
  Port : Z;
  UseTLS : bool;
  Username : gostring;
  Password : gostring
}.
End ProxyInfo.

(** Connection information. *)
Module Connection.
Record t := {
  Host : gostring;
  Port : Z;
  Reader : socks5.Reader;
  Writer : socks5.Writer;
  ReadCount : Z
}.

Definition with_Host (c : t) (h : gostring) : t :=
  {| Host := h; Port := Port c; Reader := Reader c; Writer := Writer c;
     ReadCount := ReadCount c |}.

Definition with_Port (c : t) (p : Z) : t :=
  {| Host := Host c; Port := p; Reader := Reader c; Writer := Writer c;
     ReadCount := ReadCount c |}.

Definition with_Reader (c : t) (r : socks5.Reader) : t :=
  {| Host := Host c; Port := Port c; Reader := r; Writer := Writer c;
     ReadCount := ReadCount c |}.

Definition with_Writer (c : t) (w : socks5.Writer) : t :=
  {| Host := Host c; Port := Port c; Reader := Reader c; Writer := w;
     ReadCount := ReadCount c |}.

Definition with_ReadCount (c : t) (n : Z) : t :=
  {| Host := Host c; Port := Port c; Reader := Reader c; Writer := Writer c;
     ReadCount := n |}.
End Connection.

(** The loop of [Connection.CopyData]; [ctx] is the receiver (the sink),
    [other] the source. [None] when the iterations allowed run out. *)
Fixpoint CopyData_loop (fuel : nat) (ctx other : Connection.t)
    : option (Connection.t * Connection.t) :=
  match fuel with
  | O => None
  | S fuel' =>
      let '(n, err, w, r) := io_Copy (Connection.Writer ctx) (Connection.Reader other) in
      let ctx := Connection.with_Writer ctx w in
      let other := Connection.with_Reader other r in
      if bool_decide (err <> None) || (n <=? 0) then Some (ctx, other)
      else
        CopyData_loop fuel' ctx
          (Connection.with_ReadCount other
             (wrap_uint64 (Connection.ReadCount other + n)))
  end.

(** ClientCtx for client connections (the fields the handshake uses). *)
Record ClientCtx := {
  Client : Connection.t;
  Remote : Connection.t;
  RequestData : list byte;
  Proxy : ProxyInfo.t
}.

Definition with_Client (ctx : ClientCtx) (c : Connection.t) : ClientCtx :=
  {| Client := c; Remote := Remote ctx; RequestData := RequestData ctx;
     Proxy := Proxy ctx |}.

Definition with_Remote (ctx : ClientCtx) (c : Connection.t) : ClientCtx :=
  {| Client := Client ctx; Remote := c; RequestData := RequestData ctx;
     Proxy := Proxy ctx |}.

Definition with_RequestData (ctx : ClientCtx) (d : list byte) : ClientCtx :=
  {| Client := Client ctx; Remote := Remote ctx; RequestData := d;
     Proxy := Proxy ctx |}.

Definition with_Proxy (ctx : ClientCtx) (p : ProxyInfo.t) : ClientCtx :=
  {| Client := Client ctx; Remote := Remote ctx; RequestData := RequestData ctx;
     Proxy := p |}.

(** [ctx.RequestData = append(ctx.RequestData, data)]. *)
Definition append_RequestData (ctx : ClientCtx) (data : byte) : ClientCtx :=
  with_RequestData ctx (RequestData ctx ++ [data]).

(** [ctx.Remote.Host += s]. *)
Definition append_Remote_Host (ctx : ClientCtx) (s : gostring) : ClientCtx :=
  with_Remote ctx (Connection.with_Host (Remote ctx) (Connection.Host (Remote ctx) ++ s)).

(** Case 3 of the inbound switch: respond with no authentication
    required. The new state, the session and [err]. *)
Definition inbound_case3 (ctx : ClientCtx) : Z * ClientCtx * option error :=
  let '(w, err) := Writer_Write (Connection.Writer (Client ctx)) [x05; x00] in
  let ctx := with_Client ctx (Connection.with_Writer (Client ctx) w) in
  match err with
  | Some e => (13, ctx, Some e)
  | None =>
      let '(w, err) := Writer_Flush (Connection.Writer (Client ctx)) in
      let ctx := with_Client ctx (Connection.with_Writer (Client ctx) w) in
      match err with
      | Some e => (13, ctx, Some e)
      | None => (4, ctx, None)
      end
  end.

(** The [switch state] of [processInbound] for one byte [data]: the new
    [state], [store], session and [err]. *)
Definition inbound_switch (state store : Z) (data : byte) (ctx : ClientCtx)
    : Z * Z * ClientCtx * option error :=
  let from := Connection.Host (Client ctx) in
  match state with
  | 0 =>
      if Byte.eqb data x05 then (1, store, ctx, None)
      else (13, store, ctx, Some (invalid_data 0 from))
  | 1 =>
      if int_of_byte data >? 0 then (2, int_of_byte data, ctx, None)
      else (13, store, ctx, Some (invalid_data 1 from))
  | 2 =>
      let store := wrap_int (store - 1) in
      if store >? 0 then (state, store, ctx, None)
      else
        let '(state, ctx, err) := inbound_case3 ctx in
        (state, store, ctx, err)
  | 3 =>
      let '(state, ctx, err) := inbound_case3 ctx in
      (state, store, ctx, err)
  | 4 =>
      if Byte.eqb data x05 then (5, store, ctx, None)
      else (13, store, ctx, Some (invalid_data 4 from))
  | 5 =>
      if Byte.eqb data x01 then (6, store, ctx, None)
      else (13, store, ctx, Some (invalid_data 5 from))
  | 6 => (7, store, append_RequestData ctx data, None)
  | 7 =>
      let ctx := append_RequestData ctx data in
      let '(store, state) := if Byte.eqb data x01 then (4, 8) else (store, state) in
      let '(store, state) := if Byte.eqb data x03 then (0, 9) else (store, state) in
      let '(store, state) := if Byte.eqb data x04 then (16, 11) else (store, state) in
      (state, store, ctx, None)
  | 8 =>
      let ctx := append_RequestData ctx data in
      let store := wrap_int (store - 1) in
      let ctx := append_Remote_Host ctx (strconv.Itoa (int_of_byte data)) in
      if store =? 0 then (12, 2, ctx, None)
      else (state, store, append_Remote_Host ctx (str "."), None)
  | 9 =>
      let ctx := append_RequestData ctx data in
      (10, int_of_byte data, ctx, None)
  | 10 =>
      let ctx := append_RequestData ctx data in
      let store := wrap_int (store - 1) in
      let ctx := append_Remote_Host ctx [data] in
      if store =? 0 then (12, 2, ctx, None)
      else (state, store, ctx, None)
  | 11 =>
      let ctx := append_RequestData ctx data in
      let store := wrap_int (store - 1) in
      let ctx := append_Remote_Host ctx (hex.EncodeToString [data]) in
      let ctx :=
        if (store >? 0) && (Z.rem store 2 =? 0)
        then append_Remote_Host ctx (str ":")
        else ctx in
      if store =? 0 then (12, 2, ctx, None)
      else (state, store, ctx, None)
  | 12 =>
      let port := wrap_int (Z.shiftl (Connection.Port (Remote ctx)) 8) in
      let port := wrap_int (port + int_of_byte data) in
      let ctx := with_Remote ctx (Connection.with_Port (Remote ctx) port) in
      let store := wrap_int (store - 1) in
      if store =? 0 then (13, store, ctx, None)
      else (state, store, ctx, None)
  | _ => (state, store, ctx, None)
  end.

(** The loop of [processInbound]; [input] is what the client's reader
    still delivers, kept in step with [ctx.Client.Reader]. *)
Fixpoint inbound_loop (input : list byte) (state store : Z) (ctx : ClientCtx)
    (err : option error) : ClientCtx * option error :=
  if state <? 13 then
    let reader := Connection.Reader (Client ctx) in
    match input with
    | [] => (ctx, Some (closing reader))
    | data :: input' =>
        let ctx :=
          with_Client ctx
            (Connection.with_Reader (Client ctx)
               {| pending := input'; closing := closing reader |}) in
        let '(state, store, ctx, err) := inbound_switch state store data ctx in
        inbound_loop input' state store ctx err
    end
  else (ctx, err).

(** [ClientCtx.processInbound]. *)
Definition processInbound (ctx : ClientCtx) : ClientCtx * option error :=
  inbound_loop (pending (Connection.Reader (Client ctx))) 0 0 ctx None.

(** The port as the outbound engine writes it:
    [[]byte{byte((port >> 8) & 0xFF), byte(port & 0xFF)}]. *)
Definition port_bytes (port : Z) : list byte :=
  [byte_of_int (Z.land (Z.shiftr port 8) 255); byte_of_int (Z.land port 255)].

(** The reply every failure path of [processOutbound] writes to the
    client: general error, the request data, an undefined local port. *)
Definition reply_general_error (ctx : ClientCtx) : ClientCtx :=
  with_Client ctx
    (Connection.with_Writer (Client ctx)
       (Writer_send_unchecked (Connection.Writer (Client ctx))
          [[x05; x01]; RequestData ctx; [x00; x00]])).

Definition with_Remote_Writer (ctx : ClientCtx) (w : Writer) : ClientCtx :=
  with_Remote ctx (Connection.with_Writer (Remote ctx) w).

(** Case 5 of the outbound switch: send the connect command. *)
Definition outbound_case5 (ctx : ClientCtx) : Z * ClientCtx * option error :=
  let '(w, err) :=
    Writer_send (Connection.Writer (Remote ctx))
      [[x05; x01]; RequestData ctx; port_bytes (Connection.Port (Remote ctx))] in
  let ctx := with_Remote_Writer ctx w in
  match err with
  | Some e => (15, ctx, Some e)
  | None => (6, ctx, None)
  end.

(** Case 2 of the outbound switch: send username and password. *)
Definition outbound_case2 (ctx : ClientCtx) : Z * ClientCtx * option error :=
  let proxy := Proxy ctx in
  let '(w, err) :=
    Writer_send (Connection.Writer (Remote ctx))
      [[x01; byte_of_int (len (ProxyInfo.Username proxy))];
       ProxyInfo.Username proxy;
       [byte_of_int (len (ProxyInfo.Password proxy))];
       ProxyInfo.Password proxy] in
  let ctx := with_Remote_Writer ctx w in
  match err with
  | Some e => (15, ctx, Some e)
  | None => (3, ctx, None)
  end.

(** The local variables of the outbound state machine. *)
Record outbound_vars := {
  state : Z;
  store : Z;
  response : list byte
}.

(** The [switch state] of [processOutbound] for one byte [data]. *)
Definition outbound_switch (authType : byte) (v : outbound_vars) (data : byte)
    (ctx : ClientCtx) : outbound_vars * ClientCtx * option error :=
  let host := ProxyInfo.Host (Proxy ctx) in
  let goto s := {| state := s; store := store v; response := response v |} in
  let collect s n :=
    {| state := s; store := n; response := response v ++ [data] |} in
  match state v with
  | 0 =>
      if Byte.eqb data x05 then (goto 1, ctx, None)
      else (goto 15, ctx, Some (invalid_data 0 host))
  | 1 =>
      if Byte.eqb data authType then
        let '(s, ctx, err) := outbound_case2 ctx in (goto s, ctx, err)
      else (goto 15, ctx, Some (method_not_supported host))
  | 2 =>
      let '(s, ctx, err) := outbound_case2 ctx in (goto s, ctx, err)
  | 3 =>
      if Byte.eqb data x01 then (goto 4, ctx, None)
      else (goto 15, ctx, Some (invalid_data 3 host))
  | 4 =>
      if Byte.eqb data x00 then
        let '(s, ctx, err) := outbound_case5 ctx in (goto s, ctx, err)
      else (goto 15, ctx, Some (authentication_failed host data))
  | 5 =>
      let '(s, ctx, err) := outbound_case5 ctx in (goto s, ctx, err)
  | 6 =>
      if Byte.eqb data x05 then (goto 7, ctx, None)
      else (goto 15, ctx, Some (invalid_data 6 host))
  | 7 =>
      if Byte.eqb data x00 then (goto 8, ctx, None)
      else (goto 15, ctx, Some (command_failed data))
  | 8 => (collect 9 (store v), ctx, None)
  | 9 =>
      let '(n, s) := if Byte.eqb data x01 then (4, 10) else (store v, state v) in
      let '(n, s) := if Byte.eqb data x03 then (0, 11) else (n, s) in
      let '(n, s) := if Byte.eqb data x04 then (16, 13) else (n, s) in
      (collect s n, ctx, None)
  | 10 =>
      let n := wrap_int (store v - 1) in
      if n =? 0 then (collect 14 2, ctx, None) else (collect (state v) n, ctx, None)
  | 11 => (collect 12 (int_of_byte data), ctx, None)
  | 12 =>
      let n := wrap_int (store v - 1) in
      if n =? 0 then (collect 14 2, ctx, None) else (collect (state v) n, ctx, None)
  | 13 =>
      let n := wrap_int (store v - 1) in
      if n =? 0 then (collect 14 2, ctx, None) else (collect (state v) n, ctx, None)
  | 14 =>
      let n := wrap_int (store v - 1) in
      if n =? 0 then (collect 15 n, ctx, None) else (collect (state v) n, ctx, None)
  | _ => (v, ctx, None)
  end.

(** The loop of [processOutbound] over what the upstream delivers. *)
Fixpoint outbound_loop (authType : byte) (input : list byte) (v : outbound_vars)
    (ctx : ClientCtx) (err : option error) : outbound_vars * ClientCtx * option error :=
  if state v <? 15 then
    let reader := Connection.Reader (Remote ctx) in
    match input with
    | [] => (v, ctx, Some (closing reader))
    | data :: input' =>
        let ctx :=
          with_Remote ctx
            (Connection.with_Reader (Remote ctx)
               {| pending := input'; closing := closing reader |}) in
        let '(v, ctx, err) := outbound_switch authType v data ctx in
        outbound_loop authType input' v ctx err
    end
  else (v, ctx, err).

(** [authType]: user/pass when either credential is set, else none. *)
Definition select_authType (proxy : ProxyInfo.t) : byte :=
  if (len (ProxyInfo.Username proxy) >? 0) || (len (ProxyInfo.Password proxy) >? 0)
  then x02 else x00.

(** What dialing the selected proxy gives: an error, or the reader and
    writer set up over the new connection. *)
Inductive DialOutcome :=
| DialFails (e : error)
| Dialed (r : Reader) (w : Writer).

(** [Context.logError(err)]: with a logger set it formats [err.Error()],
    which is a call on a nil interface value, hence a panic, when [err]
    is [nil]; without a logger it does nothing. The log line itself leaves
    no trace in the session. *)
Definition logError (Logger : bool) (err : option error) : outcome unit :=
  if Logger then
    match err with
    | None => Panic NilDereference
    | Some _ => Ok tt
    end
  else Ok tt.

(** [ClientCtx.processOutbound] when the pool is not empty, from the
    selection of the proxy on: [Logger] tells whether [ctx.Ctx.Logger] is
    set, [proxy] is the descriptor drawn from the pool, [dial] what
    connecting to it gives. When the credentials are too long, [err] is
    still [nil] at the call of [logError]; everywhere else [logError] gets
    the error at hand. The closing of the remote connection leaves no
    trace in the session. *)
Definition processOutbound_relayed (Logger : bool) (ctx : ClientCtx)
    (proxy : ProxyInfo.t) (dial : DialOutcome) : outcome (ClientCtx * option error) :=
  let ctx := with_Proxy ctx proxy in
  if (len (ProxyInfo.Username proxy) >? 255) || (len (ProxyInfo.Password proxy) >? 255)
  then
    let ctx := reply_general_error ctx in
    match logError Logger None with
    | Panic p => Panic p
    | Ok _ => Ok (ctx, Some (credentials_too_long (ProxyInfo.Host proxy)))
    end
  else
    Ok
    (match dial with
    | DialFails e => (reply_general_error ctx, Some e)
    | Dialed r w =>
        let ctx :=
          with_Remote ctx
            (Connection.with_Writer (Connection.with_Reader (Remote ctx) r) w) in
        let authType := select_authType proxy in
        match Writer_send (Connection.Writer (Remote ctx)) [[x05; x01; authType]] with
        | (w, Some e) => (reply_general_error (with_Remote_Writer ctx w), Some e)
        | (w, None) =>
            let ctx := with_Remote_Writer ctx w in
            let '(v, ctx, err) :=
              outbound_loop authType (pending (Connection.Reader (Remote ctx)))
                {| state := 0; store := 0; response := [] |} ctx None in
            match err with
            | None =>
                (with_Client ctx
                   (Connection.with_Writer (Client ctx)
                      (Writer_send_unchecked (Connection.Writer (Client ctx))
                         [[x05; x00]; response v])),
                 None)
            | Some e => (reply_general_error ctx, Some e)
            end
        end
    end).

(** A writer just created over a connection. *)
Definition new_Writer (broken : bool) : Writer :=
  {| unflushed := []; wire := []; broken := broken; werr := false |}.

(** The zero value of [Connection]. *)
Definition zero_Connection : Connection.t :=
  {| Connection.Host := []; Connection.Port := 0;
     Connection.Reader := {| pending := []; closing := io_EOF |};
     Connection.Writer := new_Writer false;
     Connection.ReadCount := 0 |}.

(** The zero value of [ProxyInfo]. *)
Definition zero_ProxyInfo : ProxyInfo.t :=
  {| ProxyInfo.Host := []; ProxyInfo.Port := 0; ProxyInfo.UseTLS := false;
     ProxyInfo.Username := []; ProxyInfo.Password := [] |}.

(** The session as [Listen], [HandleClients] and the head of
    [processClient] set it up for an accepted connection: the client's
    address, a reader and a writer over the connection, everything else
    at its zero value. *)
Definition new_session (host : gostring) (port : Z) (r : Reader) (w : Writer)
    : ClientCtx :=
  {| Client :=
       {| Connection.Host := host; Connection.Port := port;
          Connection.Reader := r; Connection.Writer := w;
          Connection.ReadCount := 0 |};
     Remote := zero_Connection;
     RequestData := [];
     Proxy := zero_ProxyInfo |}.

(** The session [ctx] once the inbound parser has moved on: what the
    client's reader still holds, the client's writer, the request data
    and the destination host and port collected so far. *)
Definition parsed (ctx : ClientCtx) (input : list byte) (w : Writer)
    (rd : list byte) (h : gostring) (p : Z) : ClientCtx :=
  {| Client :=
       Connection.with_Writer
         (Connection.with_Reader (Client ctx)
            {| pending := input;
               closing := closing (Connection.Reader (Client ctx)) |}) w;
     Remote := Connection.with_Port (Connection.with_Host (Remote ctx) h) p;
     RequestData := rd;
     Proxy := Proxy ctx |}.

(** The client's greeting: version 5, the number of methods, the methods. *)
Definition greeting (methods : list byte) : list byte :=
  x05 :: byte_of_int (len methods) :: methods.

(** The client's CONNECT request. *)
Definition connect_request (rsv atyp : byte) (addr : list byte) (p1 p2 : byte)
    : list byte :=
  [x05; x01; rsv; atyp] ++ addr ++ [p1; p2].

(** The address field in wire form for the three address types: four
    bytes of IPv4, sixteen bytes of IPv6, or a length byte followed by
    that many bytes of a domain name, which is not empty. *)
Definition wire_address (atyp : byte) (addr : list byte) : Prop :=
  (atyp = x01 /\ len addr = 4) \/
  (atyp = x04 /\ len addr = 16) \/
  (atyp = x03 /\
   exists (l : byte) (name : list byte),
     addr = l :: name /\ int_of_byte l = len name /\ 1 <= len name).

(** The session [ctx] once the outbound state machine has moved on: what
    the upstream's reader still holds and the upstream's writer. *)
Definition relaying (ctx : ClientCtx) (input : list byte) (w : Writer) : ClientCtx :=
  with_Remote ctx
    (Connection.with_Writer
       (Connection.with_Reader (Remote ctx)
          {| pending := input;
             closing := closing (Connection.Reader (Remote ctx)) |}) w).

(** [uint16(z)]. *)
Definition wrap_uint16 (z : Z) : Z := z mod 2 ^ 16.

(** *** package net, as far as the outbound engine uses it *)

(** [net.JoinHostPort]: a host with a colon in it is taken for an IPv6
    literal and put in brackets. *)
Definition JoinHostPort (host port : gostring) : gostring :=
  if existsb (fun c => Byte.eqb c x3a) host
  then str "[" ++ host ++ str "]:" ++ port
  else host ++ str ":" ++ port.

(** [IP.To4]: a four-byte address is returned as it is, a sixteen-byte
    address with the IPv4-mapped prefix gives its last four bytes, any
    other address gives [nil]. *)
Definition IP_To4 (ip : list byte) : option (list byte) :=
  if len ip =? 4 then Some ip
  else if (len ip =? 16)
          && forallb (fun c => Byte.eqb c x00) (take 10 ip)
          && Byte.eqb (nth 10 ip x00) xff
          && Byte.eqb (nth 11 ip x00) xff
  then Some (take 4 (drop 12 ip))
  else None.

(** What [net.Dial] or [tls.Dial] gives: an error, or a connection with
    the reader and writer set up over it and its local port. *)
Inductive DialResult :=
| Refused (e : error)
| Connected (r : Reader) (w : Writer) (localPort : Z).

(** The network and the random source as the outbound engine sees them:
    dialing an address, and [rand.Intn]. *)
Class Net := {
  net_Dial : gostring -> DialResult;
  tls_Dial : gostring -> DialResult;
  rand_Intn : Z -> Z
}.

Section WithNet.
Context `{Net}.

(** [ClientCtx.processOutbound] when the pool is empty: connect to the
    destination directly and answer the client. [ReportIP] is
    [ctx.Ctx.ReportIP]. *)
Definition processOutbound_direct (ReportIP : list byte) (ctx : ClientCtx)
    : ClientCtx * option error :=
  let address :=
    JoinHostPort (Connection.Host (Remote ctx))
      (strconv.Itoa (Connection.Port (Remote ctx))) in
  match net_Dial address with
  | Connected r w localPort =>
      let ctx :=
        with_Remote ctx
          (Connection.with_Writer (Connection.with_Reader (Remote ctx) r) w) in
      let proxyport := wrap_uint16 localPort in
      let address_record :=
        match IP_To4 ReportIP with
        | Some reportIP => [[x01]; reportIP]
        | None => [[x04]; ReportIP]
        end in
      (with_Client ctx
         (Connection.with_Writer (Client ctx)
            (Writer_send_unchecked (Connection.Writer (Client ctx))
               ([[x05; x00; x00]] ++ address_record ++ [port_bytes proxyport]))),
       None)
  | Refused e => (reply_general_error ctx, Some e)
  end.

(** [ClientCtx.processOutbound]; [Logger] tells whether
    [ctx.Ctx.Logger] is set, [pool] is [ctx.Ctx.Proxies.Hosts]. An index
    outside the pool would be a panic. *)
Definition processOutbound (Logger : bool) (pool : list ProxyInfo.t)
    (ReportIP : list byte) (ctx : ClientCtx) : outcome (ClientCtx * option error) :=
  if len pool =? 0 then Ok (processOutbound_direct ReportIP ctx)
  else
    let i := rand_Intn (len pool) in
    if (0 <=? i) && (i <? len pool) then
      match pool !! Z.to_nat i with
      | None => Panic (IndexOutOfRange i (len pool))
      | Some proxy =>
          let address :=
            JoinHostPort (ProxyInfo.Host proxy) (strconv.Itoa (ProxyInfo.Port proxy)) in
          let dial :=
            match (if ProxyInfo.UseTLS proxy then tls_Dial address else net_Dial address) with
            | Refused e => DialFails e
            | Connected r w _ => Dialed r w
            end in
          processOutbound_relayed Logger ctx proxy dial
      end
    else Panic (IndexOutOfRange i (len pool)).

(** How far [processClient] gets before it starts the two copies. *)
Inductive Handshake :=
| InvalidRequest (ctx : ClientCtx) (e : error)
| Blacklisted (ctx : ClientCtx)
| OutboundFailed (ctx : ClientCtx) (e : error)
| Opened (ctx : ClientCtx).

(** [ClientCtx.processClient] from the call of [processInbound] to the
    return of [processOutbound]; [Logger] tells whether [ctx.Ctx.Logger]
    is set, [DomainFilter] is [ctx.Ctx.DomainFilter]. Log lines leave no
    trace here. *)
Definition processClient_handshake `{Unicode} (Logger : bool)
    (DomainFilter : filter.Filter) (pool : list ProxyInfo.t) (ReportIP : list byte)
    (ctx : ClientCtx) : outcome Handshake :=
  let '(ctx, err) := processInbound ctx in
  match err with
  | Some e => Ok (InvalidRequest ctx e)
  | None =>
      if filter.blocked (filter.Filter_Matches DomainFilter (Connection.Host (Remote ctx)))
      then Ok (Blacklisted ctx)
      else
        match processOutbound Logger pool ReportIP ctx with
        | Panic p => Panic p
        | Ok (ctx, Some e) => Ok (OutboundFailed ctx e)
        | Ok (ctx, None) => Ok (Opened ctx)
        end
  end.

End WithNet.

End socks5.

(** ** Fixtures for the concrete scenarios *)
Module scenario.
Import golang filter socks5.

(** Tables that leave non-ASCII text alone; the scenarios are ASCII. *)
Definition ascii_tables : Unicode := {| map_unicode_ToLower := fun s => s |}.

(** A world in which no file opens and no URL answers. *)
Definition nothing_there : World :=
  {| os_file := fun _ => OpenFails;
     http_fetch := fun _ => GetFails;
     json_Unmarshal := fun _ v => (v, true) |}.

(** A world in which every path and every URL holds [data]. *)
Definition serving (data : list byte) : World :=
  {| os_file := fun _ => Contents data;
     http_fetch := fun _ => Body data;
     json_Unmarshal := fun _ v => (v, true) |}.

Definition empty_filter : Filter := {| Domains := []; FileName := [] |}.

(** A world in which every path holds a JSON array of one object,
    with the name [a.com] and a string where the hit count should be: the
    decoder stores the entry with the name it could read and returns a
    type error. [x22] is the quotation mark. *)
Definition mistyped_hits : World :=
  {| os_file := fun _ =>
       Contents (str "[{" ++ [x22] ++ str "name" ++ [x22] ++ str ":"
                 ++ [x22] ++ str "a.com" ++ [x22] ++ str ","
                 ++ [x22] ++ str "hits" ++ [x22] ++ str ":"
                 ++ [x22] ++ str "x" ++ [x22] ++ str "}]");
     http_fetch := fun _ => GetFails;
     json_Unmarshal := fun _ _ => ([ {| Name := str "a.com"; Hits := 0 |} ], true) |}.

(** A network on which every dial is refused. *)
Definition unreachable : Net :=
  {| net_Dial := fun _ => Refused transport_error;
     tls_Dial := fun _ => Refused transport_error;
     rand_Intn := fun _ => 0 |}.

(** A network on which every dial gives a connection that delivers
    [reply] and then closes, from local port [localPort]. *)
Definition answering (reply : list byte) (localPort : Z) : Net :=
  {| net_Dial := fun _ =>
       Connected {| pending := reply; closing := io_EOF |} (new_Writer false) localPort;
     tls_Dial := fun _ =>
       Connected {| pending := reply; closing := io_EOF |} (new_Writer false) localPort;
     rand_Intn := fun _ => 0 |}.

End scenario.

(** * Properties *)

Import golang filter socks5.

(** ** Bytes and integers *)

Lemma int_of_byte_range (b : byte) : 0 <= int_of_byte b < 256.
Proof.
  unfold int_of_byte. pose proof (Byte.to_N_bounded b) as Hb.
  lia.
Qed.

Lemma int_of_byte_inj (x y : byte) : int_of_byte x = int_of_byte y -> x = y.
Proof.
  unfold int_of_byte. intros Hxy. apply N2Z.inj in Hxy.
  pose proof (Byte.of_to_N x) as Hx. rewrite Hxy, Byte.of_to_N in Hx.
  congruence.
Qed.

Lemma byte_of_int_of_byte (b : byte) : byte_of_int (int_of_byte b) = b.
Proof.
  unfold byte_of_int. pose proof (int_of_byte_range b) as Hb.
  rewrite Z.mod_small by lia. unfold int_of_byte.
  rewrite N2Z.id, Byte.of_to_N. reflexivity.
Qed.

Lemma wrap_int_small (z : Z) : - 2 ^ 63 <= z < 2 ^ 63 -> wrap_int z = z.
Proof. intros Hz. unfold wrap_int. rewrite Z.mod_small; lia. Qed.

Lemma len_app {A} (l k : list A) : len (l ++ k) = len l + len k.
Proof. unfold len. rewrite length_app. lia. Qed.

Lemma len_nonneg {A} (l : list A) : 0 <= len l.
Proof. unfold len. lia. Qed.

(** ** The suffix rule *)

Lemma Compare_eq_iff (a b : gostring) : strings.Compare a b = 0 <-> a = b.
Proof.
  revert b. induction a as [|x a IH]; intros [|y b]; simpl; try (split; congruence).
  destruct (int_of_byte x <? int_of_byte y) eqn:Hlt; [split; [lia|]|].
  { intros [= -> _]. lia. }
  destruct (int_of_byte y <? int_of_byte x) eqn:Hgt; [split; [lia|]|].
  { intros [= -> _]. lia. }
  rewrite IH. split.
  - intros ->. f_equal. apply int_of_byte_inj. lia.
  - intros [= _ ->]. reflexivity.
Qed.

Lemma DomainEntry_Matches_iff (entry : DomainEntry) (q : gostring) :
  DomainEntry_Matches entry q = true <->
  len q >= len (Name entry) /\
  drop (length q - length (Name entry)) q = Name entry.
Proof.
  unfold DomainEntry_Matches, len.
  destruct (Z.ltb_spec (Z.of_nat (length q) - Z.of_nat (length (Name entry))) 0) as [Hlt|Hge].
  - split; [discriminate|]. intros [Hle _]. lia.
  - replace (Z.to_nat (Z.of_nat (length q) - Z.of_nat (length (Name entry))))
      with (length q - length (Name entry))%nat by lia.
    destruct (Z.eqb_spec (strings.Compare (Name entry)
                (drop (length q - length (Name entry)) q)) 0) as [Heq|Hne].
    + apply Compare_eq_iff in Heq. split; [|reflexivity].
      intros _. split; [lia|]. symmetry. exact Heq.
    + split; [discriminate|]. intros [_ Heq]. exfalso. apply Hne.
      apply Compare_eq_iff. symmetry. exact Heq.
Qed.

(** The suffix rule is stdpp's [suffix] relation. *)
Lemma DomainEntry_Matches_suffix (entry : DomainEntry) (q : gostring) :
  DomainEntry_Matches entry q = true <-> Name entry `suffix_of` q.
Proof.
  rewrite DomainEntry_Matches_iff. unfold len. split.
  - intros [Hle Heq]. exists (take (length q - length (Name entry)) q).
    rewrite <- Heq at 2. symmetry. apply take_drop.
  - intros [k ->]. rewrite length_app. split; [lia|].
    replace (length k + length (Name entry) - length (Name entry))%nat
      with (length k) by lia.
    apply drop_app_length.
Qed.

Section FilterLookup.
Context `{Unicode}.

Lemma Matches_range_receiver (ctx : Filter) rest item last :
  receiver (Matches_range ctx rest item last) = ctx.
Proof.
  revert last. induction rest as [|e rest IH]; intros last; simpl; [reflexivity|].
  destruct (DomainEntry_Matches e (strings.ToLower item)); [reflexivity|apply IH].
Qed.

Lemma Matches_range_blocked (ctx : Filter) rest item last :
  blocked (Matches_range ctx rest item last) = true <->
  exists e, e ∈ rest /\ DomainEntry_Matches e (strings.ToLower item) = true.
Proof.
  revert last. induction rest as [|e rest IH]; intros last; simpl.
  - split; [discriminate|]. intros (e & He & _). inversion He.
  - destruct (DomainEntry_Matches e (strings.ToLower item)) eqn:Hm; simpl.
    + split; [|reflexivity]. intros _. exists e. split; [left|exact Hm].
    + rewrite IH. split.
      * intros (e' & He' & Hm'). exists e'. split; [right; exact He'|exact Hm'].
      * intros (e' & He' & Hm'). exists e'. split; [|exact Hm'].
        inversion He' as [|? ? ? Hin]; subst; [congruence|exact Hin].
Qed.

(** The first matching entry is the one whose copy is incremented; the
    entries before it do not match. *)
Lemma Matches_range_first (ctx : Filter) rest item last :
  blocked (Matches_range ctx rest item last) = true ->
  exists before e after,
    rest = before ++ e :: after /\
    Forall (fun b => DomainEntry_Matches b (strings.ToLower item) = false) before /\
    DomainEntry_Matches e (strings.ToLower item) = true /\
    loopvar (Matches_range ctx rest item last)
      = Some {| Name := Name e; Hits := wrap_int (Hits e + 1) |}.
Proof.
  revert last. induction rest as [|e rest IH]; intros last; simpl; [discriminate|].
  destruct (DomainEntry_Matches e (strings.ToLower item)) eqn:Hm; simpl.
  - intros _. exists [], e, rest. repeat split; [constructor|exact Hm].
  - intros Hb. destruct (IH _ Hb) as (before & e' & after & -> & Hbefore & Hm' & Hl).
    exists (e :: before), e', after. repeat split; [constructor; assumption|exact Hm'|exact Hl].
Qed.

(** C1. An entry matches a query exactly when the query is at least as
    long as the entry's name and its last [len(name)] bytes are the name;
    [Filter.Matches] answers true exactly when some stored entry matches
    the lowercased host under that rule; there is no dot-boundary check:
    the entry [badhost.com] matches the query [xbadhost.com]. *)
Theorem suffix_rule_lookup :
  (forall (entry : DomainEntry) (q : gostring),
      DomainEntry_Matches entry q = true <->
      len q >= len (Name entry) /\
      drop (length q - length (Name entry)) q = Name entry) /\
  (forall (ctx : Filter) (h : gostring),
      blocked (Filter_Matches ctx h) = true <->
      exists e, e ∈ Domains ctx /\
        len (strings.ToLower h) >= len (Name e) /\
        drop (length (strings.ToLower h) - length (Name e)) (strings.ToLower h)
          = Name e) /\
  DomainEntry_Matches {| Name := str "badhost.com"; Hits := 0 |}
    (str "xbadhost.com") = true.
Proof.
  split; [exact DomainEntry_Matches_iff|]. split; [|reflexivity].
  intros ctx h. unfold Filter_Matches. rewrite Matches_range_blocked.
  split; intros (e & He & Hm); exists e; (split; [exact He|]);
    apply DomainEntry_Matches_iff; exact Hm.
Qed.

(** C2. On a filter holding the single entry [badhost.com] with no hits,
    looking up [badhost.com] answers true, but the increment lands on the
    loop variable (a copy of the entry): the stored sequence still records
    zero hits. *)
Theorem Matches_hit_is_not_stored :
  let ctx := {| Domains := [ {| Name := str "badhost.com"; Hits := 0 |} ];
                FileName := str "blacklist.json" |} in
  Filter_Matches ctx (str "badhost.com")
  = {| blocked := true;
       receiver := ctx;
       loopvar := Some {| Name := str "badhost.com"; Hits := 1 |} |}.
Proof. reflexivity. Qed.

(** The query is lowercased before the comparison; the entry is not. *)
Example Filter_Matches_mixed_case :
  blocked (Filter_Matches
             {| Domains := [ {| Name := str "badhost.com"; Hits := 0 |} ];
                FileName := [] |}
             (str "WWW.BadHost.COM")) = true.
Proof. reflexivity. Qed.

(** No lookup changes the stored entries, whatever the filter and query. *)
Lemma Filter_Matches_receiver (ctx : Filter) (item : gostring) :
  receiver (Filter_Matches ctx item) = ctx.
Proof. apply Matches_range_receiver. Qed.

End FilterLookup.

(** ** Deduplication *)

Lemma deduplicate_add_true (e : DomainEntry) (rest : list DomainEntry) :
  deduplicate_add e rest = true <->
  forall j e', rest !! j = Some e' -> DomainEntry_Matches e (Name e') = false.
Proof.
  induction rest as [|c rest IH]; simpl.
  - split; [|reflexivity]. intros _ j e' Hj. destruct j; discriminate.
  - destruct (DomainEntry_Matches e (Name c)) eqn:Hm.
    + split; [discriminate|]. intros Hall. specialize (Hall 0%nat c eq_refl). congruence.
    + rewrite IH. split.
      * intros Hall [|j] e' Hj; simpl in Hj; [congruence|eauto].
      * intros Hall j e' Hj. apply (Hall (S j)). exact Hj.
Qed.

Lemma deduplicate_add_false (e : DomainEntry) (rest : list DomainEntry) :
  deduplicate_add e rest = false <->
  exists j e', rest !! j = Some e' /\ DomainEntry_Matches e (Name e') = true.
Proof.
  induction rest as [|c rest IH]; simpl.
  - split; [discriminate|]. intros ([|j] & e' & Hj & _); discriminate.
  - destruct (DomainEntry_Matches e (Name c)) eqn:Hm.
    + split; [|reflexivity]. intros _. exists 0%nat, c. split; [reflexivity|exact Hm].
    + rewrite IH. split.
      * intros (j & e' & Hj & Hm'). exists (S j), e'. split; assumption.
      * intros ([|j] & e' & Hj & Hm'); simpl in Hj; [congruence|].
        exists j, e'. split; assumption.
Qed.

Lemma deduplicate_range_app (domains newlist : list DomainEntry) :
  deduplicate_range domains newlist = newlist ++ deduplicate_range domains [].
Proof.
  revert newlist. induction domains as [|e rest IH]; intros newlist; simpl.
  - rewrite app_nil_r. reflexivity.
  - destruct (deduplicate_add e rest).
    + rewrite (IH (newlist ++ [e])), (IH [e]), <- app_assoc. reflexivity.
    + apply IH.
Qed.

(** The indices that survive, in increasing order: [kept] lists them, the
    result is the entries at those indices, and an index is kept exactly
    when the inner loop leaves [add] true for it. *)
Lemma deduplicate_range_kept (l : list DomainEntry) :
  exists kept : list nat,
    (forall a b ka kb, (a < b)%nat -> kept !! a = Some ka -> kept !! b = Some kb ->
                       (ka < kb)%nat) /\
    Forall2 (fun k e => l !! k = Some e) kept (deduplicate_range l []) /\
    (forall i e, l !! i = Some e ->
                 (i ∈ kept <-> deduplicate_add e (drop (S i) l) = true)).
Proof.
  induction l as [|e rest (kept & Hsorted & Hres & Hkept)].
  - exists []. split; [|split].
    + intros a b ka kb _ Ha. destruct a; discriminate.
    + constructor.
    + intros i e Hi. destruct i; discriminate.
  - simpl deduplicate_range. rewrite deduplicate_range_app.
    assert (Hshift : Forall2 (fun k x => (e :: rest) !! k = Some x) (S <$> kept)
                       (deduplicate_range rest [])).
    { apply Forall2_fmap_l. eapply Forall2_impl; [exact Hres|].
      intros k x Hk. exact Hk. }
    assert (Hmono : forall a b ka kb, (a < b)%nat ->
              (S <$> kept) !! a = Some ka -> (S <$> kept) !! b = Some kb -> (ka < kb)%nat).
    { intros a b ka kb Hab Ha Hb. rewrite list_lookup_fmap in Ha, Hb.
      destruct (kept !! a) as [ka'|] eqn:Hka; [|discriminate].
      destruct (kept !! b) as [kb'|] eqn:Hkb; [|discriminate].
      simpl in Ha, Hb. injection Ha as <-. injection Hb as <-.
      pose proof (Hsorted a b ka' kb' Hab Hka Hkb). lia. }
    assert (Hin : forall i, S i ∈ S <$> kept <-> i ∈ kept).
    { intros i. rewrite list_elem_of_fmap. split.
      - intros (y & Hy & Hin). injection Hy as ->. exact Hin.
      - intros Hi. exists i. split; [reflexivity|exact Hi]. }
    assert (Hzero : ~ 0%nat ∈ S <$> kept).
    { rewrite list_elem_of_fmap. intros (y & Hy & _). discriminate. }
    destruct (deduplicate_add e rest) eqn:Hadd.
    + exists (0%nat :: (S <$> kept)). split; [|split].
      * intros [|a] [|b] ka kb Hab Ha Hb; simpl in Ha, Hb; try lia.
        -- injection Ha as <-. rewrite list_lookup_fmap in Hb.
           destruct (kept !! b); [|discriminate]. simpl in Hb. injection Hb as <-. lia.
        -- apply (Hmono a b); [lia|assumption..].
      * simpl. constructor; [reflexivity|exact Hshift].
      * intros [|i] x Hi; simpl in Hi.
        -- injection Hi as <-. simpl. rewrite drop_0, Hadd.
           split; [reflexivity|]. intros _. left.
        -- simpl. rewrite <- (Hkept i x Hi), <- Hin. split.
           ++ intros Hx. inversion Hx; subst. assumption.
           ++ intros Hx. right. exact Hx.
    + exists (S <$> kept). split; [exact Hmono|]. split; [exact Hshift|].
      intros [|i] x Hi; simpl in Hi.
      * injection Hi as <-. simpl. rewrite drop_0, Hadd.
        split; [intros Hx; contradiction|discriminate].
      * simpl. rewrite <- (Hkept i x Hi). apply Hin.
Qed.

(** C3. Deduplication keeps a subsequence of the entries: the kept
    indices are increasing (relative order is preserved), the entry at
    index [i] is dropped exactly when it suffix-matches the name of some
    entry at an index [j > i], and in the result no entry suffix-matches
    the name of an entry that follows it. *)
Theorem deduplicate_drops_earlier_suffixes (ctx : Filter) :
  FileName (deduplicate ctx) = FileName ctx /\
  exists kept : list nat,
    (forall a b ka kb, (a < b)%nat -> kept !! a = Some ka -> kept !! b = Some kb ->
                       (ka < kb)%nat) /\
    Forall2 (fun k e => Domains ctx !! k = Some e) kept (Domains (deduplicate ctx)) /\
    (forall i ei, Domains ctx !! i = Some ei ->
       (~ i ∈ kept <->
        exists j ej, (i < j)%nat /\ Domains ctx !! j = Some ej /\
                     DomainEntry_Matches ei (Name ej) = true)) /\
    (forall i j ei ej, (i < j)%nat ->
       Domains (deduplicate ctx) !! i = Some ei ->
       Domains (deduplicate ctx) !! j = Some ej ->
       DomainEntry_Matches ei (Name ej) = false).
Proof.
  split; [reflexivity|]. simpl.
  destruct (deduplicate_range_kept (Domains ctx)) as (kept & Hsorted & Hres & Hkept).
  exists kept. split; [exact Hsorted|]. split; [exact Hres|]. split.
  - intros i ei Hi. rewrite (Hkept i ei Hi).
    rewrite not_true_iff_false, deduplicate_add_false. split.
    + intros (j & ej & Hj & Hm). rewrite lookup_drop in Hj.
      exists (S i + j)%nat, ej. split; [lia|]. split; assumption.
    + intros (j & ej & Hij & Hj & Hm). exists (j - S i)%nat, ej.
      rewrite lookup_drop. replace (S i + (j - S i))%nat with j by lia.
      split; assumption.
  - intros i j ei ej Hij Hi Hj.
    destruct (Forall2_lookup_r _ _ _ _ _ Hres Hi) as (ki & Hki & Hli).
    destruct (Forall2_lookup_r _ _ _ _ _ Hres Hj) as (kj & Hkj & Hlj).
    pose proof (Hsorted i j ki kj Hij Hki Hkj) as Hlt.
    assert (Hin : ki ∈ kept) by (apply list_elem_of_lookup; eauto).
    apply (Hkept ki ei Hli) in Hin.
    apply (proj1 (deduplicate_add_true _ _) Hin (kj - S ki)%nat ej).
    rewrite lookup_drop. replace (S ki + (kj - S ki))%nat with kj by lia.
    exact Hlj.
Qed.

(** The scenario of the specification: [a.com] is dropped because it is a
    suffix of the later [sub.a.com]. *)
Example deduplicate_scenario :
  Domains (deduplicate
             {| Domains := [ {| Name := str "a.com"; Hits := 0 |};
                             {| Name := str "sub.a.com"; Hits := 0 |};
                             {| Name := str "b.com"; Hits := 0 |} ];
                FileName := [] |})
  = [ {| Name := str "sub.a.com"; Hits := 0 |}; {| Name := str "b.com"; Hits := 0 |} ].
Proof. reflexivity. Qed.

(** ** JSON ingest *)

(** [LoadFile] records the path before it opens the file: after a failed
    load of a missing file the remembered path is the requested one. *)
Lemma LoadFile_missing_file_moves_FileName :
  @os_file scenario.nothing_there (str "missing.json") = OpenFails /\
  @LoadFile scenario.nothing_there scenario.empty_filter (str "missing.json")
  = (false, {| Domains := []; FileName := str "missing.json" |}) /\
  snd (@LoadFile scenario.nothing_there scenario.empty_filter (str "missing.json"))
  <> scenario.empty_filter.
Proof.
  split; [reflexivity|]. split; [reflexivity|]. simpl. discriminate.
Qed.

(** C6 (amended). When [LoadFile] fails, because the file could not be
    opened, sized or read or because decoding failed, it returns false
    and the remembered path is the requested path; when the file could
    not be opened, sized or read the entries are exactly what they were
    before the call. *)
Theorem LoadFile_failure `{World} (ctx : Filter) (file : gostring) :
  (os_file file = OpenFails \/ os_file file = StatFails \/ os_file file = ReadFails \/
   exists data, os_file file = Contents data /\
                snd (json_Unmarshal data (Domains ctx)) = true) ->
  fst (LoadFile ctx file) = false /\
  FileName (snd (LoadFile ctx file)) = file /\
  ((os_file file = OpenFails \/ os_file file = StatFails \/ os_file file = ReadFails) ->
     Domains (snd (LoadFile ctx file)) = Domains ctx).
Proof.
  unfold LoadFile. intros Hfail.
  destruct (os_file file) as [| | |data] eqn:Hfile; simpl.
  1-3: repeat split; reflexivity.
  destruct Hfail as [Hf|[Hf|[Hf|(data' & Hf & Herr)]]]; try discriminate.
  injection Hf as <-.
  destruct (json_Unmarshal data (Domains ctx)) as [domains err] eqn:Hjson.
  simpl in Herr. subst err. simpl. repeat split.
  intros [Hno|[Hno|Hno]]; discriminate.
Qed.

Lemma LoadFile_failure_witness :
  @os_file scenario.nothing_there (str "missing.json") = OpenFails /\
  fst (@LoadFile scenario.nothing_there scenario.empty_filter (str "missing.json")) = false /\
  FileName (snd (@LoadFile scenario.nothing_there scenario.empty_filter (str "missing.json")))
  = str "missing.json" /\
  Domains (snd (@LoadFile scenario.nothing_there scenario.empty_filter (str "missing.json")))
  = [].
Proof.
  split; [reflexivity|].
  pose proof (@LoadFile_failure scenario.nothing_there scenario.empty_filter
                (str "missing.json") (or_introl eq_refl)) as (Hret & Hname & Hdomains).
  split; [exact Hret|]. split; [exact Hname|].
  exact (Hdomains (or_introl eq_refl)).
Defined.

(** A decoder that has filled in part of the array before it meets the
    error has written into [ctx.Domains] itself: the load returns false,
    and the entries are no longer the ones of before the call. The other
    failure paths leave them alone. *)
Lemma LoadFile_decode_failure_writes_entries :
  @LoadFile scenario.mistyped_hits scenario.empty_filter (str "list.json")
  = (false, {| Domains := [ {| Name := str "a.com"; Hits := 0 |} ];
               FileName := str "list.json" |}) /\
  Domains (snd (@LoadFile scenario.mistyped_hits scenario.empty_filter (str "list.json")))
  <> Domains scenario.empty_filter.
Proof.
  split; [reflexivity|]. simpl. discriminate.
Qed.

(** ** Line-format ingest *)

Section LineIngest.
Context `{Unicode} `{World}.

Lemma len_zero_nil {A} (l : list A) : len l = 0 -> l = [].
Proof. destruct l; [reflexivity|]. unfold len. simpl. lia. Qed.

Lemma ToLower_spaces (s : gostring) :
  Forall (fun c => c = x20) s -> strings.ToLower s = s.
Proof.
  intros Hs. unfold strings.ToLower.
  assert (Hascii : strings.isASCII s = true).
  { induction Hs as [|c s -> _ IH]; [reflexivity|]. simpl. exact IH. }
  rewrite Hascii. clear Hascii. induction Hs as [|c s -> _ IH]; [reflexivity|].
  simpl. rewrite IH. reflexivity.
Qed.

Lemma trimLeftByte_all (s : gostring) (c : byte) :
  Forall (fun x => x = c) s -> strings.trimLeftByte s c = [].
Proof.
  induction 1 as [|x s -> _ IH]; [reflexivity|]. simpl.
  assert (Hcc : Byte.eqb c c = true) by (apply Byte.byte_dec_lb; reflexivity).
  rewrite Hcc. exact IH.
Qed.

Lemma Trim_spaces (s : gostring) :
  Forall (fun c => c = x20) s -> strings.Trim s x20 = [].
Proof.
  intros Hs. unfold strings.Trim, strings.trimRightByte.
  rewrite (trimLeftByte_all (rev s) x20); [reflexivity|]. apply Forall_rev. exact Hs.
Qed.

(** The first loop is a left-to-right scan: a prefix of the bytes turns
    the loop variables into new ones, whatever follows. *)
Lemma split_lines_app (d1 : list byte) :
  forall temp list_ count, exists temp' list' count',
    forall d2, split_lines (d1 ++ d2) temp list_ count
               = split_lines d2 temp' list' count'.
Proof.
  induction d1 as [|char d1 IH]; intros temp list_ count; simpl.
  - exists temp, list_, count. reflexivity.
  - destruct (negb (Byte.eqb char x0a) && negb (Byte.eqb char x0d)); [apply IH|].
    destruct (len temp =? 0); [apply IH|].
    destruct (len (strings.ToLower temp) >? 0); apply IH.
Qed.

(** After a line terminator [temp] is empty. *)
Lemma split_lines_terminator (nl : byte) :
  nl = x0a \/ nl = x0d ->
  forall temp list_ count, exists list' count',
    forall d2, split_lines (nl :: d2) temp list_ count = split_lines d2 [] list' count'.
Proof.
  intros Hnl temp list_ count. simpl.
  assert (Hcond : negb (Byte.eqb nl x0a) && negb (Byte.eqb nl x0d) = false)
    by (destruct Hnl as [-> | ->]; reflexivity).
  rewrite Hcond.
  destruct (Z.eqb_spec (len temp) 0) as [Hz|Hnz].
  - apply len_zero_nil in Hz. subst temp. exists list_, count. reflexivity.
  - destruct (Z.gtb_spec (len (strings.ToLower temp)) 0) as [Hgt|Hle].
    + eexists _, _. reflexivity.
    + assert (Hnil : strings.ToLower temp = []).
      { apply len_zero_nil. pose proof (len_nonneg (strings.ToLower temp)). lia. }
      rewrite Hnil. exists list_, count. reflexivity.
Qed.

(** At the start of a line [temp] is empty. *)
Lemma split_lines_line_start (before : list byte) :
  (before = [] \/ exists b t, before = b ++ [t] /\ (t = x0a \/ t = x0d)) ->
  forall list_ count, exists list' count',
    forall d2, split_lines (before ++ d2) [] list_ count
               = split_lines d2 [] list' count'.
Proof.
  intros [-> | (b & t & -> & Ht)] list_ count.
  - exists list_, count. reflexivity.
  - destruct (split_lines_app b [] list_ count) as (temp1 & list1 & count1 & H1).
    destruct (split_lines_terminator t Ht temp1 list1 count1) as (list2 & count2 & H2).
    exists list2, count2. intros d2.
    rewrite <- app_assoc. simpl. rewrite H1. apply H2.
Qed.

Lemma split_lines_spaces (spaces : list byte) :
  Forall (fun c => c = x20) spaces ->
  forall temp list_ count d2,
    split_lines (spaces ++ d2) temp list_ count
    = split_lines d2 (temp ++ spaces) list_ count.
Proof.
  induction 1 as [|c spaces -> _ IH]; intros temp list_ count d2; simpl.
  - rewrite app_nil_r. reflexivity.
  - rewrite IH, <- app_assoc. reflexivity.
Qed.

(** Lines already collected stay in the list. *)
Lemma split_lines_keeps (data : list byte) :
  forall temp list_ count line,
    line ∈ list_ -> line ∈ fst (split_lines data temp list_ count).
Proof.
  induction data as [|char data IH]; intros temp list_ count line Hin; simpl.
  - exact Hin.
  - destruct (negb (Byte.eqb char x0a) && negb (Byte.eqb char x0d)); [apply IH, Hin|].
    destruct (len temp =? 0); [apply IH, Hin|].
    destruct (len (strings.ToLower temp) >? 0); apply IH; [|exact Hin].
    apply elem_of_app. left. exact Hin.
Qed.

(** A line of spaces that is terminated reaches the second loop. *)
Lemma split_lines_blank_line (before spaces after : list byte) (nl : byte) :
  (before = [] \/ exists b t, before = b ++ [t] /\ (t = x0a \/ t = x0d)) ->
  spaces <> [] -> Forall (fun c => c = x20) spaces -> nl = x0a \/ nl = x0d ->
  spaces ∈ fst (split_lines (before ++ spaces ++ nl :: after) [] [] 0).
Proof.
  intros Hstart Hne Hsp Hnl.
  destruct (split_lines_line_start before Hstart [] 0) as (list1 & count1 & H1).
  rewrite H1, split_lines_spaces by exact Hsp. simpl.
  assert (Hcond : negb (Byte.eqb nl x0a) && negb (Byte.eqb nl x0d) = false)
    by (destruct Hnl as [-> | ->]; reflexivity).
  rewrite Hcond, (ToLower_spaces spaces Hsp).
  assert (Hlen : 0 < len spaces).
  { destruct spaces; [congruence|]. unfold len. simpl. lia. }
  destruct (Z.eqb_spec (len spaces) 0) as [Hz|_]; [lia|].
  destruct (Z.gtb_spec (len spaces) 0) as [_|Hle]; [|lia].
  apply split_lines_keeps, elem_of_app. right. left.
Qed.

(** The second loop panics as soon as one line trims to nothing. *)
Lemma parse_lines_blank (list_ : list gostring) :
  forall domains line,
    line ∈ list_ -> line <> [] -> strings.ToLower (strings.Trim line x20) = [] ->
    parse_lines list_ domains = Panic (IndexOutOfRange 0 0).
Proof.
  induction list_ as [|head rest IH]; intros domains line Hin Hne Hblank.
  - inversion Hin.
  - simpl. destruct (Z.eqb_spec (len head) 0) as [Hz|Hnz].
    + apply len_zero_nil in Hz. subst head.
      inversion Hin; subst; [congruence|]. eapply IH; eassumption.
    + destruct (strings.ToLower (strings.Trim head x20)) as [|c tl] eqn:Hhead;
        [reflexivity|].
      assert (Hrest : line ∈ rest).
      { inversion Hin; subst; [congruence|assumption]. }
      destruct (Byte.eqb c x23); eapply IH; eassumption.
Qed.

(** C10. Line-format ingest is not total: when the bytes read contain a
    line made only of spaces and ended by LF or CR, [LoadListFile], and
    [LoadHTTP] alike, trims it to the empty string and indexes its first
    byte, which is out of range; the call panics instead of skipping the
    line. *)
Theorem line_ingest_panics_on_blank_line (ctx : Filter) (path : gostring)
    (before spaces after : list byte) (nl : byte) :
  (before = [] \/ exists b t, before = b ++ [t] /\ (t = x0a \/ t = x0d)) ->
  spaces <> [] -> Forall (fun c => c = x20) spaces -> nl = x0a \/ nl = x0d ->
  (os_file path = Contents (before ++ spaces ++ nl :: after) ->
   LoadListFile ctx path = Panic (IndexOutOfRange 0 0)) /\
  (http_fetch path = Body (before ++ spaces ++ nl :: after) ->
   LoadHTTP ctx path = Panic (IndexOutOfRange 0 0)).
Proof.
  intros Hstart Hne Hsp Hnl.
  assert (Hload : load_lines ctx (before ++ spaces ++ nl :: after)
                  = Panic (IndexOutOfRange 0 0)).
  { unfold load_lines.
    pose proof (split_lines_blank_line before spaces after nl Hstart Hne Hsp Hnl) as Hin.
    destruct (split_lines (before ++ spaces ++ nl :: after) [] [] 0) as [list_ count].
    simpl in Hin.
    rewrite (parse_lines_blank list_ (Domains ctx) spaces Hin Hne); [reflexivity|].
    rewrite (Trim_spaces spaces Hsp). reflexivity. }
  split; intros Hsrc.
  - unfold LoadListFile. rewrite Hsrc. exact Hload.
  - unfold LoadHTTP. rewrite Hsrc. exact Hload.
Qed.

End LineIngest.

Lemma line_ingest_panics_on_blank_line_witness :
  @LoadListFile scenario.ascii_tables (scenario.serving [x20; x0a])
    scenario.empty_filter (str "hosts.txt") = Panic (IndexOutOfRange 0 0).
Proof.
  refine (proj1 (@line_ingest_panics_on_blank_line scenario.ascii_tables
                   (scenario.serving [x20; x0a]) scenario.empty_filter (str "hosts.txt")
                   [] [x20] [] x0a _ _ _ _) eq_refl).
  - left. reflexivity.
  - discriminate.
  - repeat constructor.
  - left. reflexivity.
Defined.

(** C7. A file holding the line [a.com] ended by LF and then [b.com]
    with no terminator: only [a.com] becomes an entry. The first loop
    leaves the bytes after the last terminator in [temp] and never turns
    them into a line. *)
Theorem line_ingest_drops_unterminated_line :
  let data := str "a.com" ++ [x0a] ++ str "b.com" in
  @LoadListFile scenario.ascii_tables (scenario.serving data)
    scenario.empty_filter (str "hosts.txt")
  = Ok (true, 1, {| Domains := [ {| Name := str "a.com"; Hits := 0 |} ];
                   FileName := [] |}) /\
  @LoadHTTP scenario.ascii_tables (scenario.serving data)
    scenario.empty_filter (str "http://lists.example/hosts.txt")
  = Ok (true, 1, {| Domains := [ {| Name := str "a.com"; Hits := 0 |} ];
                   FileName := [] |}).
Proof. split; reflexivity. Qed.

(** A hosts file with CR LF line ends, a comment and mixed case: the
    terminated lines become lower-case entries, the last field of each. *)
Example line_ingest_hosts_file :
  let data := str "# blocked hosts" ++ [x0d; x0a]
              ++ str "0.0.0.0 BadHost.com" ++ [x0d; x0a]
              ++ str "  Ads.Example  " ++ [x0a] in
  @LoadListFile scenario.ascii_tables (scenario.serving data)
    scenario.empty_filter (str "hosts.txt")
  = Ok (true, 3, {| Domains := [ {| Name := str "badhost.com"; Hits := 0 |};
                                 {| Name := str "ads.example"; Hits := 0 |} ];
                   FileName := [] |}).
Proof. reflexivity. Qed.

(** Bytes without a line terminator never become a line, whatever the
    filter: the load reports success and adds nothing. *)
Lemma load_lines_without_terminator `{Unicode} (ctx : Filter) (data : list byte) :
  Forall (fun c => c <> x0a /\ c <> x0d) data ->
  load_lines ctx data = Ok (true, 0, deduplicate ctx).
Proof.
  intros Hdata. unfold load_lines.
  assert (Hsplit : forall temp list_ count,
             split_lines data temp list_ count = (list_, count)).
  { induction Hdata as [|c data [Hlf Hcr] _ IH]; intros temp list_ count;
      [reflexivity|]. simpl.
    destruct (Byte.eqb c x0a) eqn:Ea; [apply Byte.byte_dec_bl in Ea; congruence|].
    destruct (Byte.eqb c x0d) eqn:Ed; [apply Byte.byte_dec_bl in Ed; congruence|].
    simpl. apply IH. }
  rewrite Hsplit. simpl. destruct ctx; reflexivity.
Qed.

(** ** The inbound handshake parser *)

Lemma int_of_byte_of_int (z : Z) : 0 <= z < 256 -> int_of_byte (byte_of_int z) = z.
Proof.
  intros Hz. unfold byte_of_int. rewrite Z.mod_small by lia.
  destruct (Byte.of_N (Z.to_N z)) as [b|] eqn:Hb.
  - apply Byte.to_of_N in Hb. unfold int_of_byte. rewrite Hb. lia.
  - apply Byte.of_N_None_iff in Hb. lia.
Qed.

Lemma port_bytes_big_endian (p1 p2 : byte) :
  port_bytes (256 * int_of_byte p1 + int_of_byte p2) = [p1; p2].
Proof.
  pose proof (int_of_byte_range p1) as H1. pose proof (int_of_byte_range p2) as H2.
  unfold port_bytes.
  change 255 with (Z.ones 8). rewrite !Z.land_ones, Z.shiftr_div_pow2 by lia.
  change (2 ^ 8) with 256.
  replace ((256 * int_of_byte p1 + int_of_byte p2) / 256) with (int_of_byte p1)
    by (apply Z.div_unique with (r := int_of_byte p2); lia).
  replace ((256 * int_of_byte p1 + int_of_byte p2) mod 256) with (int_of_byte p2)
    by (apply Z.mod_unique with (q := int_of_byte p1); lia).
  rewrite (Z.mod_small (int_of_byte p1)) by lia.
  rewrite !byte_of_int_of_byte. reflexivity.
Qed.

Section Inbound.
Variable c0 : ClientCtx.

(** One turn of the loop: read a byte, run the switch. *)
Lemma inbound_loop_read (d : byte) (input : list byte) (st k : Z) (w : Writer)
    (rd : list byte) (h : gostring) (p : Z) (err : option error) :
  st < 13 ->
  inbound_loop (d :: input) st k (parsed c0 (d :: input) w rd h p) err
  = let '(st', k', ctx', err') := inbound_switch st k d (parsed c0 input w rd h p) in
    inbound_loop input st' k' ctx' err'.
Proof.
  intros Hst. simpl. destruct (Z.ltb_spec st 13); [reflexivity|lia].
Qed.

Lemma inbound_loop_done (input : list byte) (st k : Z) (ctx : ClientCtx)
    (err : option error) :
  13 <= st -> inbound_loop input st k ctx err = (ctx, err).
Proof.
  intros Hst. destruct input; simpl; destruct (Z.ltb_spec st 13); (reflexivity || lia).
Qed.

(** States 8, 10 and 11 append the byte to the request data, add to the
    destination host, and count [store] down to the port. *)
Lemma inbound_switch_address (s k : Z) (d : byte) (input : list byte) (w : Writer)
    (rd : list byte) (h : gostring) (p : Z) :
  s = 8 \/ s = 10 \/ s = 11 ->
  exists h',
    inbound_switch s k d (parsed c0 input w rd h p)
    = if wrap_int (k - 1) =? 0
      then (12, 2, parsed c0 input w (rd ++ [d]) h' p, None)
      else (s, wrap_int (k - 1), parsed c0 input w (rd ++ [d]) h' p, None).
Proof.
  intros [-> | [-> | ->]]; cbv beta iota zeta delta [inbound_switch].
  - destruct (wrap_int (k - 1) =? 0); eexists; reflexivity.
  - destruct (wrap_int (k - 1) =? 0); eexists; reflexivity.
  - destruct (wrap_int (k - 1) =? 0);
      destruct ((wrap_int (k - 1) >? 0) && (Z.rem (wrap_int (k - 1)) 2 =? 0));
      eexists; reflexivity.
Qed.

Lemma inbound_address_phase (s : Z) (addr : list byte) :
  s = 8 \/ s = 10 \/ s = 11 -> addr <> [] -> len addr <= 255 ->
  forall rest w rd h p err, exists h',
    inbound_loop (addr ++ rest) s (len addr) (parsed c0 (addr ++ rest) w rd h p) err
    = inbound_loop rest 12 2 (parsed c0 rest w (rd ++ addr) h' p) None.
Proof.
  intros Hs. induction addr as [|a t IH]; [congruence|].
  intros _ Hlen rest w rd h p err.
  change ((a :: t) ++ rest) with (a :: (t ++ rest)).
  rewrite inbound_loop_read by lia.
  destruct (inbound_switch_address s (len (a :: t)) a (t ++ rest) w rd h p Hs) as [h1 ->].
  assert (Hk : wrap_int (len (a :: t) - 1) = len t).
  { rewrite wrap_int_small; unfold len in *; simpl length in *; lia. }
  rewrite Hk. destruct t as [|b t'].
  - exists h1. reflexivity.
  - assert (Hnz : (len (b :: t') =? 0) = false).
    { apply Z.eqb_neq. unfold len. simpl length. lia. }
    rewrite Hnz.
    destruct (IH ltac:(discriminate) ltac:(unfold len in *; simpl length in *; lia)
                rest w (rd ++ [a]) h1 p None) as [h' Heq].
    exists h'. rewrite <- app_assoc in Heq. exact Heq.
Qed.

(** State 2 counts the methods down; after the last one the reply
    [05 00] goes out and the parser waits for the request. *)
Lemma inbound_methods_phase (methods : list byte) :
  methods <> [] -> len methods <= 255 ->
  forall rest rd h p err,
    inbound_loop (methods ++ rest) 2 (len methods)
      (parsed c0 (methods ++ rest) (new_Writer false) rd h p) err
    = inbound_loop rest 4 0
        (parsed c0 rest
           {| unflushed := []; wire := [x05; x00]; broken := false; werr := false |}
           rd h p) None.
Proof.
  induction methods as [|m t IH]; [congruence|].
  intros _ Hlen rest rd h p err.
  change ((m :: t) ++ rest) with (m :: (t ++ rest)).
  rewrite inbound_loop_read by lia.
  cbv beta iota zeta delta [inbound_switch].
  assert (Hk : wrap_int (len (m :: t) - 1) = len t).
  { rewrite wrap_int_small; unfold len in *; simpl length in *; lia. }
  rewrite Hk. destruct t as [|b t'].
  - reflexivity.
  - assert (Hpos : (len (b :: t') >? 0) = true).
    { apply Z.gtb_lt. unfold len. simpl length. lia. }
    rewrite Hpos. apply IH; [discriminate|unfold len in *; simpl length in *; lia].
Qed.

(** State 12 shifts the two port bytes into the destination port. *)
Lemma inbound_port_phase (p1 p2 : byte) (rest : list byte) (w : Writer)
    (rd : list byte) (h : gostring) (err : option error) :
  inbound_loop (p1 :: p2 :: rest) 12 2 (parsed c0 (p1 :: p2 :: rest) w rd h 0) err
  = (parsed c0 rest w rd h (256 * int_of_byte p1 + int_of_byte p2), None).
Proof.
  pose proof (int_of_byte_range p1) as H1. pose proof (int_of_byte_range p2) as H2.
  rewrite inbound_loop_read by lia.
  cbv beta iota zeta delta [inbound_switch].
  change (Connection.Port (Remote (parsed c0 (p2 :: rest) w rd h 0))) with 0.
  change (wrap_int (Z.shiftl 0 8)) with 0.
  change (wrap_int (2 - 1)) with 1. change (1 =? 0) with false. cbv iota.
  rewrite (wrap_int_small (0 + int_of_byte p1)) by lia.
  change (with_Remote (parsed c0 (p2 :: rest) w rd h 0)
            (Connection.with_Port (Remote (parsed c0 (p2 :: rest) w rd h 0))
               (0 + int_of_byte p1)))
    with (parsed c0 (p2 :: rest) w rd h (0 + int_of_byte p1)).
  rewrite inbound_loop_read by lia.
  cbv beta iota zeta delta [inbound_switch].
  change (Connection.Port (Remote (parsed c0 rest w rd h (0 + int_of_byte p1))))
    with (0 + int_of_byte p1).
  change (wrap_int (1 - 1)) with 0. change (0 =? 0) with true. cbv iota.
  rewrite Z.shiftl_mul_pow2 by lia. change (2 ^ 8) with 256.
  rewrite (wrap_int_small ((0 + int_of_byte p1) * 256)) by lia.
  rewrite (wrap_int_small ((0 + int_of_byte p1) * 256 + int_of_byte p2)) by lia.
  rewrite inbound_loop_done by lia.
  replace ((0 + int_of_byte p1) * 256 + int_of_byte p2)
    with (256 * int_of_byte p1 + int_of_byte p2) by lia.
  reflexivity.
Qed.

Lemma append_RequestData_parsed (input : list byte) (w : Writer) (rd : list byte)
    (h : gostring) (p : Z) (d : byte) :
  append_RequestData (parsed c0 input w rd h p) d = parsed c0 input w (rd ++ [d]) h p.
Proof. reflexivity. Qed.

Ltac eval_byte_tests :=
  repeat match goal with
         | |- context [Byte.eqb ?a ?b] =>
             let v := eval vm_compute in (Byte.eqb a b) in
             progress change (Byte.eqb a b) with v
         end;
  cbv iota.

Ltac inbound_step :=
  rewrite inbound_loop_read by lia;
  cbv beta iota zeta delta [inbound_switch];
  eval_byte_tests;
  rewrite ?append_RequestData_parsed; cbn [app].

(** A whole well-formed exchange, from the greeting to the port. *)
Lemma inbound_loop_request (methods : list byte) (rsv atyp : byte)
    (addr : list byte) (p1 p2 : byte) (rest : list byte) :
  1 <= len methods <= 255 -> wire_address atyp addr ->
  exists h,
    inbound_loop (greeting methods ++ connect_request rsv atyp addr p1 p2 ++ rest) 0 0
      (parsed c0 (greeting methods ++ connect_request rsv atyp addr p1 p2 ++ rest)
         (new_Writer false) [] [] 0) None
    = (parsed c0 rest
         {| unflushed := []; wire := [x05; x00]; broken := false; werr := false |}
         ([rsv; atyp] ++ addr) h (256 * int_of_byte p1 + int_of_byte p2), None).
Proof.
  intros Hm Haddr. unfold greeting, connect_request.
  rewrite <- !app_assoc. cbn [app].
  inbound_step. inbound_step.
  rewrite int_of_byte_of_int by lia.
  assert (Hpos : (len methods >? 0) = true) by (apply Z.gtb_lt; lia).
  rewrite Hpos.
  rewrite inbound_methods_phase;
    [|intros ->; unfold len in Hm; simpl in Hm; lia|lia].
  do 3 inbound_step.
  destruct Haddr as [[-> Hlen] | [[-> Hlen] | (-> & l & name & -> & Hl & Hname)]].
  - inbound_step.
    rewrite <- Hlen.
    destruct (inbound_address_phase 8 addr) with
      (rest := p1 :: p2 :: rest)
      (w := {| unflushed := []; wire := [x05; x00]; broken := false; werr := false |})
      (rd := [rsv; x01]) (h := @nil byte) (p := 0) (err := @None error)
      as [h' ->]; [left; reflexivity| |lia|].
    { intros ->. unfold len in Hlen. simpl in Hlen. lia. }
    exists h'. apply inbound_port_phase.
  - inbound_step.
    rewrite <- Hlen.
    destruct (inbound_address_phase 11 addr) with
      (rest := p1 :: p2 :: rest)
      (w := {| unflushed := []; wire := [x05; x00]; broken := false; werr := false |})
      (rd := [rsv; x04]) (h := @nil byte) (p := 0) (err := @None error)
      as [h' ->]; [right; right; reflexivity| |lia|].
    { intros ->. unfold len in Hlen. simpl in Hlen. lia. }
    exists h'. apply inbound_port_phase.
  - cbn [app]. inbound_step.
    inbound_step.
    rewrite Hl.
    pose proof (int_of_byte_range l) as Hrange.
    destruct (inbound_address_phase 10 name) with
      (rest := p1 :: p2 :: rest)
      (w := {| unflushed := []; wire := [x05; x00]; broken := false; werr := false |})
      (rd := [rsv; x03; l]) (h := @nil byte) (p := 0) (err := @None error)
      as [h' ->]; [right; left; reflexivity| |lia|].
    { intros ->. unfold len in Hname. simpl in Hname. lia. }
    exists h'. apply inbound_port_phase.
Qed.

End Inbound.

(** C4. For a well-formed greeting and CONNECT request with address type
    1, 3 or 4, read by a fresh session whose client accepts the method
    reply, the parse succeeds with the request data equal to
    [RSV, ATYP, address in wire form] (length byte and name for a domain),
    without the port bytes; the destination port is the big-endian value
    of the two port bytes; the bytes after the request stay unread; and
    [05 01] followed by the request data and the re-encoded port is the
    request as the client sent it. *)
Theorem processInbound_captures_address (host : gostring) (port : Z)
    (fate : error) (methods : list byte) (rsv atyp : byte) (addr : list byte)
    (p1 p2 : byte) (rest : list byte) :
  1 <= len methods <= 255 ->
  wire_address atyp addr ->
  exists ctx',
    processInbound
      (new_session host port
         {| pending := greeting methods ++ connect_request rsv atyp addr p1 p2 ++ rest;
            closing := fate |}
         (new_Writer false))
    = (ctx', None) /\
    RequestData ctx' = [rsv; atyp] ++ addr /\
    Connection.Port (Remote ctx') = 256 * int_of_byte p1 + int_of_byte p2 /\
    port_bytes (Connection.Port (Remote ctx')) = [p1; p2] /\
    pending (Connection.Reader (Client ctx')) = rest /\
    [x05; x01] ++ RequestData ctx' ++ port_bytes (Connection.Port (Remote ctx'))
    = connect_request rsv atyp addr p1 p2.
Proof.
  intros Hm Haddr.
  set (input := greeting methods ++ connect_request rsv atyp addr p1 p2 ++ rest).
  set (c0 := new_session host port {| pending := input; closing := fate |}
               (new_Writer false)).
  destruct (inbound_loop_request c0 methods rsv atyp addr p1 p2 rest Hm Haddr)
    as [h Hloop].
  eexists. split.
  - unfold processInbound.
    change (pending (Connection.Reader (Client c0))) with input.
    change c0 with (parsed c0 input (new_Writer false) [] [] 0) at 1.
    exact Hloop.
  - cbn [parsed RequestData Remote Client Connection.Port Connection.with_Port
           Connection.Reader Connection.with_Writer Connection.with_Reader pending].
    rewrite port_bytes_big_endian. unfold connect_request.
    repeat split.
Qed.

Lemma processInbound_captures_address_witness :
  exists ctx',
    processInbound
      (new_session (str "192.0.2.1") 50000
         {| pending := greeting [x00]
                       ++ connect_request x00 x03 (x07 :: str "example") x01 xbb ++ [];
            closing := io_EOF |}
         (new_Writer false))
    = (ctx', None) /\
    RequestData ctx' = [x00; x03] ++ (x07 :: str "example") /\
    Connection.Port (Remote ctx') = 443.
Proof.
  destruct (processInbound_captures_address (str "192.0.2.1") 50000 io_EOF [x00]
              x00 x03 (x07 :: str "example") x01 xbb [])
    as (ctx' & Hrun & Hrd & Hport & _).
  - unfold len. simpl. lia.
  - right. right. split; [reflexivity|].
    exists x07, (str "example"). split; [reflexivity|]. split; [reflexivity|].
    unfold len. simpl. lia.
  - exists ctx'. split; [exact Hrun|]. split; [exact Hrd|exact Hport].
Defined.

(** Once the length byte of a domain name is zero, state 10 starts with
    [store] at zero, the decrement takes it below, and the test
    [store == 0] never succeeds: every later byte is taken as a byte of
    the name and the parse ends only when the reader does. *)
Lemma inbound_domain_without_end (input : list byte) :
  forall k ctx err,
    k <= 0 -> - 2 ^ 63 <= k - len input ->
    snd (inbound_loop input 10 k ctx err)
    = Some (closing (Connection.Reader (Client ctx))).
Proof.
  induction input as [|d input IH]; intros k ctx err Hk Hlow; [reflexivity|].
  assert (Hlen : len (d :: input) = len input + 1) by (unfold len; simpl length; lia).
  pose proof (len_nonneg input) as Hnn.
  cbn [inbound_loop]. change (10 <? 13) with true. cbv beta iota zeta delta [inbound_switch].
  rewrite (wrap_int_small (k - 1)) by lia.
  destruct (Z.eqb_spec (k - 1) 0) as [Hz|_]; [lia|].
  rewrite IH by lia. reflexivity.
Qed.

(** C9. The greeting [05 01 00] followed by a CONNECT request for a
    domain name of length zero and port 443: the parser does not stop
    after the port. It appends the two port bytes to the request data and
    to the destination host, leaves the port at zero, and returns the
    end-of-stream error of the reader. *)
Theorem processInbound_empty_domain_swallows_port :
  exists ctx',
    processInbound
      (new_session (str "192.0.2.1") 50000
         {| pending := greeting [x00] ++ connect_request x00 x03 [x00] x01 xbb;
            closing := io_EOF |}
         (new_Writer false))
    = (ctx', Some io_EOF) /\
    RequestData ctx' = [x00; x03; x00; x01; xbb] /\
    Connection.Host (Remote ctx') = [x01; xbb] /\
    Connection.Port (Remote ctx') = 0 /\
    pending (Connection.Reader (Client ctx')) = [].
Proof.
  eexists. split; [vm_compute; reflexivity|]. repeat split.
Qed.

(** ** The outbound relay *)

Lemma select_authType_userpass (proxy : ProxyInfo.t) :
  select_authType proxy = x02 <->
  ProxyInfo.Username proxy <> [] \/ ProxyInfo.Password proxy <> [].
Proof.
  unfold select_authType, len.
  destruct (ProxyInfo.Username proxy) as [|u us], (ProxyInfo.Password proxy) as [|q qs];
    simpl; split; intros Hx; try discriminate; try reflexivity;
    try (left; discriminate); try (right; discriminate).
  destruct Hx; congruence.
Qed.

Lemma select_authType_none (proxy : ProxyInfo.t) :
  select_authType proxy = x00 <->
  ProxyInfo.Username proxy = [] /\ ProxyInfo.Password proxy = [].
Proof.
  unfold select_authType, len.
  destruct (ProxyInfo.Username proxy) as [|u us], (ProxyInfo.Password proxy) as [|q qs];
    simpl; split; intros Hx; try discriminate; try reflexivity;
    try (split; reflexivity); destruct Hx; congruence.
Qed.

(** In state 1 the method byte that equals [authType] falls through to
    the code that sends the user/pass message, whatever [authType] is:
    the message goes out and the machine waits for its reply in state 3. *)
Lemma outbound_method_reply_sends_userpass (authType : byte) (v : outbound_vars)
    (ctx : ClientCtx) :
  state v = 1 ->
  werr (Connection.Writer (Remote ctx)) = false ->
  broken (Connection.Writer (Remote ctx)) = false ->
  exists v' ctx',
    outbound_switch authType v authType ctx = (v', ctx', None) /\
    state v' = 3 /\
    accepted (Connection.Writer (Remote ctx'))
    = accepted (Connection.Writer (Remote ctx))
      ++ [x01; byte_of_int (len (ProxyInfo.Username (Proxy ctx)))]
      ++ ProxyInfo.Username (Proxy ctx)
      ++ [byte_of_int (len (ProxyInfo.Password (Proxy ctx)))]
      ++ ProxyInfo.Password (Proxy ctx).
Proof.
  intros Hst Hwerr Hbroken.
  destruct ctx as [client [rh rp rr [u wr br we] rc] rd proxy].
  simpl in Hwerr, Hbroken. subst br we.
  unfold outbound_switch. rewrite Hst.
  assert (Heq : Byte.eqb authType authType = true)
    by (apply Byte.byte_dec_lb; reflexivity).
  rewrite Heq.
  cbv beta iota zeta delta [outbound_case2 Writer_send Writer_Write Writer_Flush
    Proxy Remote Connection.Writer werr unflushed wire broken with_Remote_Writer
    with_Remote Connection.with_Writer].
  match goal with
  | |- context [len ?l =? 0] =>
      assert (Hne : (len l =? 0) = false)
        by (apply Z.eqb_neq; rewrite !len_app; unfold len; simpl length; lia);
      rewrite Hne
  end.
  eexists _, _. split; [reflexivity|]. split; [reflexivity|].
  unfold accepted. simpl. rewrite app_nil_r, <- !app_assoc. reflexivity.
Qed.

(** C5. A descriptor without credentials gets [authType] 0; when the
    upstream answers the greeting with [05 00], the engine still sends
    the user/pass message [01 00 00] and waits for its reply. Here the
    upstream, as a no-authentication server does, sends nothing more: the
    CONNECT request is never sent and the client gets the general
    failure. This is so with and without a logger. *)
Theorem relay_without_credentials_still_negotiates (Logger : bool) :
  let proxy := {| ProxyInfo.Host := str "u.example"; ProxyInfo.Port := 1080;
                  ProxyInfo.UseTLS := false;
                  ProxyInfo.Username := []; ProxyInfo.Password := [] |} in
  let request := greeting [x00] ++ connect_request x00 x01 [xc6; x33; x64; x09] x01 xbb in
  let session :=
    fst (processInbound
           (new_session (str "192.0.2.1") 50000
              {| pending := request; closing := io_EOF |} (new_Writer false))) in
  let upstream := Dialed {| pending := [x05; x00]; closing := io_EOF |} (new_Writer false) in
  select_authType proxy = x00 /\
  RequestData session = [x00; x01; xc6; x33; x64; x09] /\
  exists ctx',
    processOutbound_relayed Logger session proxy upstream = Ok (ctx', Some io_EOF) /\
    wire (Connection.Writer (Remote ctx')) = [x05; x01; x00] ++ [x01; x00; x00] /\
    unflushed (Connection.Writer (Remote ctx')) = [] /\
    wire (Connection.Writer (Client ctx'))
    = [x05; x00] ++ [x05; x01] ++ RequestData session ++ [x00; x00].
Proof.
  cbv zeta. split; [reflexivity|]. split; [reflexivity|].
  destruct Logger; (eexists; split; [vm_compute; reflexivity|]; repeat split).
Qed.

(** ** Splice *)

(** Two turns of the loop are enough: the first copy drains the source,
    the second finds nothing and returns. *)
Lemma CopyData_loop_returns (fuel : nat) (ctx other : Connection.t) :
  CopyData_loop (S (S fuel)) ctx other = CopyData_loop 2 ctx other /\
  is_Some (CopyData_loop 2 ctx other).
Proof.
  destruct ctx as [ch cp cr [u wr br we] cc], other as [oh op [pend fate] ow oc].
  cbn [CopyData_loop]. unfold io_Copy. simpl.
  destruct we; simpl; [split; [reflexivity|eexists; reflexivity]|].
  destruct (len pend =? 0); simpl.
  { destruct fate; simpl; (split; [reflexivity|eexists; reflexivity]). }
  destruct br; simpl; [split; [reflexivity|eexists; reflexivity]|].
  destruct fate; simpl; try (split; [reflexivity|eexists; reflexivity]).
  destruct (len pend <=? 0); simpl; (split; [reflexivity|eexists; reflexivity]).
Qed.

(** X23. When the source ends with end of stream and the sink takes the
    bytes (its writer has no error and its transport accepts writes),
    [CopyData] returns within two copies, everything the source delivered
    has been accepted by the sink, and the source's [ReadCount] has grown
    by that number of bytes. *)
Lemma CopyData_counts_until_EOF (ctx other : Connection.t) :
  werr (Connection.Writer ctx) = false ->
  broken (Connection.Writer ctx) = false ->
  closing (Connection.Reader other) = io_EOF ->
  0 <= Connection.ReadCount other < 2 ^ 64 ->
  exists ctx' other',
    CopyData_loop 2 ctx other = Some (ctx', other') /\
    accepted (Connection.Writer ctx')
    = accepted (Connection.Writer ctx) ++ pending (Connection.Reader other) /\
    Connection.ReadCount other'
    = wrap_uint64 (Connection.ReadCount other + len (pending (Connection.Reader other))).
Proof.
  destruct ctx as [ch cp cr [u wr br we] cc], other as [oh op [pend fate] ow oc].
  simpl. intros -> -> -> Hoc. cbn [CopyData_loop]. unfold io_Copy. simpl.
  destruct (Z.eqb_spec (len pend) 0) as [Hz|Hnz]; simpl.
  - apply len_zero_nil in Hz. subst pend.
    eexists _, _. split; [reflexivity|]. unfold accepted. simpl.
    split; [rewrite !app_nil_r; reflexivity|].
    unfold wrap_uint64, len. simpl length. rewrite Z.mod_small; lia.
  - pose proof (len_nonneg pend) as Hnn.
    destruct (Z.leb_spec (len pend) 0) as [Hle|Hgt]; [lia|]. simpl.
    eexists _, _. split; [reflexivity|]. unfold accepted. simpl.
    rewrite !app_nil_r, <- !app_assoc. split; reflexivity.
Qed.

(** When the sink's transport refuses writes and the source has bytes to
    deliver, the copy returns the write error: the sink accepts nothing
    and nothing is counted. *)
Lemma CopyData_broken_sink_counts_nothing (ctx other : Connection.t) :
  werr (Connection.Writer ctx) = false ->
  broken (Connection.Writer ctx) = true ->
  pending (Connection.Reader other) <> [] ->
  exists ctx' other',
    CopyData_loop 2 ctx other = Some (ctx', other') /\
    accepted (Connection.Writer ctx') = accepted (Connection.Writer ctx) /\
    Connection.ReadCount other' = Connection.ReadCount other.
Proof.
  destruct ctx as [ch cp cr [u wr br we] cc], other as [oh op [pend fate] ow oc].
  simpl. intros -> -> Hpend. cbn [CopyData_loop]. unfold io_Copy. simpl.
  destruct (Z.eqb_spec (len pend) 0) as [Hz|Hnz]; simpl.
  - apply len_zero_nil in Hz. contradiction.
  - eexists _, _. split; [reflexivity|]. split; reflexivity.
Qed.

(** C8. A source that delivers three bytes and then fails with a
    transport error: the three bytes reach the sink, the copy returns,
    and the source's [ReadCount] is still zero. The test
    [err != nil || n <= 0] returns before the count is added. *)
Theorem CopyData_error_loses_count :
  let source :=
    Connection.with_Reader zero_Connection
      {| pending := [x01; x02; x03]; closing := transport_error |} in
  exists sink' source',
    CopyData_loop 2 zero_Connection source = Some (sink', source') /\
    accepted (Connection.Writer sink') = [x01; x02; x03] /\
    pending (Connection.Reader source') = [] /\
    Connection.ReadCount source' = 0.
Proof.
  eexists _, _. split; [vm_compute; reflexivity|]. repeat split.
Qed.

(** The same for every source that ends with an error other than end of
    stream, on a sink that takes the bytes: what the source delivered is
    moved and none of it is counted. *)
Lemma CopyData_error_counts_nothing (ctx other : Connection.t) :
  werr (Connection.Writer ctx) = false ->
  broken (Connection.Writer ctx) = false ->
  closing (Connection.Reader other) <> io_EOF ->
  exists ctx' other',
    CopyData_loop 2 ctx other = Some (ctx', other') /\
    accepted (Connection.Writer ctx')
    = accepted (Connection.Writer ctx) ++ pending (Connection.Reader other) /\
    Connection.ReadCount other' = Connection.ReadCount other.
Proof.
  destruct ctx as [ch cp cr [u wr br we] cc], other as [oh op [pend fate] ow oc].
  simpl. intros -> -> Hfate. cbn [CopyData_loop]. unfold io_Copy. simpl.
  destruct (Z.eqb_spec (len pend) 0) as [Hz|Hnz]; simpl.
  - apply len_zero_nil in Hz. subst pend.
    destruct fate; [congruence| | | | | |]; simpl;
      (eexists _, _; split; [reflexivity|]; unfold accepted; simpl;
       rewrite !app_nil_r; split; reflexivity).
  - destruct fate; [congruence| | | | | |]; simpl;
      (eexists _, _; split; [reflexivity|]; unfold accepted; simpl;
       rewrite !app_nil_r, <- ?app_assoc; split; reflexivity).
Qed.

(** * Further properties *)

(** ** The matcher *)

(** An entry matches its own name. *)
Lemma DomainEntry_Matches_own_name (e : DomainEntry) :
  DomainEntry_Matches e (Name e) = true.
Proof. apply DomainEntry_Matches_suffix. reflexivity. Qed.

(** X1. The entry that deduplication drops is the broader one: an entry that
    matches the name of another entry matches every query that entry
    matches. *)
Theorem DomainEntry_Matches_trans (a b : DomainEntry) (q : gostring) :
  DomainEntry_Matches a (Name b) = true ->
  DomainEntry_Matches b q = true ->
  DomainEntry_Matches a q = true.
Proof.
  rewrite !DomainEntry_Matches_suffix. intros Hab Hbq.
  etransitivity; eassumption.
Qed.

Lemma DomainEntry_Matches_trans_witness :
  DomainEntry_Matches {| Name := str "a.com"; Hits := 0 |} (str "www.sub.a.com") = true.
Proof.
  apply (DomainEntry_Matches_trans {| Name := str "a.com"; Hits := 0 |}
           {| Name := str "sub.a.com"; Hits := 7 |} (str "www.sub.a.com"));
    reflexivity.
Defined.

Lemma deduplicate_add_Forall (e : DomainEntry) (rest : list DomainEntry) :
  deduplicate_add e rest = true <->
  Forall (fun c => DomainEntry_Matches e (Name c) = false) rest.
Proof.
  induction rest as [|c rest IH]; simpl.
  - split; [constructor|reflexivity].
  - destruct (DomainEntry_Matches e (Name c)) eqn:Hm.
    + split; [discriminate|]. intros Hall. inversion Hall; congruence.
    + rewrite IH. split; [intros Hall; constructor; assumption|].
      intros Hall. inversion Hall; assumption.
Qed.

Lemma deduplicate_range_cons (e : DomainEntry) (rest : list DomainEntry) :
  deduplicate_range (e :: rest) []
  = if deduplicate_add e rest then e :: deduplicate_range rest []
    else deduplicate_range rest [].
Proof.
  simpl. destruct (deduplicate_add e rest); [|reflexivity].
  rewrite deduplicate_range_app. reflexivity.
Qed.

Lemma deduplicate_range_sublist (l : list DomainEntry) :
  deduplicate_range l [] `sublist_of` l.
Proof.
  induction l as [|e rest IH]; [constructor|].
  rewrite deduplicate_range_cons. destruct (deduplicate_add e rest).
  - apply sublist_skip. exact IH.
  - apply sublist_cons. exact IH.
Qed.

Lemma deduplicate_add_sublist (e : DomainEntry) (l k : list DomainEntry) :
  l `sublist_of` k -> deduplicate_add e k = true -> deduplicate_add e l = true.
Proof.
  rewrite !deduplicate_add_Forall, !Forall_forall. intros Hsub Hall c Hc.
  apply Hall. eapply elem_of_sublist; eassumption.
Qed.

Lemma deduplicate_range_idempotent (l : list DomainEntry) :
  deduplicate_range (deduplicate_range l []) [] = deduplicate_range l [].
Proof.
  induction l as [|e rest IH]; [reflexivity|].
  rewrite deduplicate_range_cons. destruct (deduplicate_add e rest) eqn:Hadd.
  - rewrite deduplicate_range_cons.
    rewrite (deduplicate_add_sublist e _ rest (deduplicate_range_sublist rest) Hadd).
    rewrite IH. reflexivity.
  - exact IH.
Qed.

(** X2. Deduplicating twice changes nothing more. *)
Theorem deduplicate_idempotent (ctx : Filter) :
  deduplicate (deduplicate ctx) = deduplicate ctx.
Proof.
  unfold deduplicate. simpl. rewrite deduplicate_range_idempotent. reflexivity.
Qed.

(** X3. After deduplication no two entries carry the same name. *)
Theorem deduplicate_names_distinct (ctx : Filter) :
  NoDup (Name <$> Domains (deduplicate ctx)).
Proof.
  simpl. induction (Domains ctx) as [|e rest IH]; [constructor|].
  rewrite deduplicate_range_cons. destruct (deduplicate_add e rest) eqn:Hadd; [|exact IH].
  rewrite fmap_cons. constructor; [|exact IH].
  rewrite list_elem_of_fmap. intros (c & Hname & Hc).
  apply deduplicate_add_Forall in Hadd.
  rewrite Forall_forall in Hadd.
  assert (Hin : c ∈ rest).
  { eapply elem_of_sublist; [exact Hc|apply deduplicate_range_sublist]. }
  specialize (Hadd c Hin). rewrite <- Hname, DomainEntry_Matches_own_name in Hadd.
  discriminate.
Qed.

(** X4. The last entry always survives: a filter that holds entries still
    holds entries after deduplication. *)
Theorem deduplicate_keeps_last (ctx : Filter) :
  last (Domains (deduplicate ctx)) = last (Domains ctx).
Proof.
  simpl. induction (Domains ctx) as [|e rest IH]; [reflexivity|].
  rewrite deduplicate_range_cons. destruct rest as [|e' rest'].
  - reflexivity.
  - destruct (deduplicate_add e (e' :: rest')).
    + destruct (deduplicate_range (e' :: rest') []) as [|d ds] eqn:Hd.
      * symmetry in IH. apply last_None in IH. discriminate.
      * rewrite last_cons_cons. exact IH.
    + rewrite last_cons_cons. exact IH.
Qed.

Section FilterCoverage.
Context `{Unicode}.

(** X5. Deduplication never makes the filter block a host it did not block
    before. *)
Theorem deduplicate_blocks_no_more (ctx : Filter) (h : gostring) :
  blocked (Filter_Matches (deduplicate ctx) h) = true ->
  blocked (Filter_Matches ctx h) = true.
Proof.
  unfold Filter_Matches. rewrite !Matches_range_blocked.
  intros (e & He & Hm). exists e. split; [|exact Hm].
  eapply elem_of_sublist; [exact He|apply deduplicate_range_sublist].
Qed.

(** X6. Deduplication can make the filter block less. When the broader of two entries
    comes first it is the one dropped, and a host that only the broader
    entry matched, such as the broader name itself, is no longer blocked. *)
Theorem deduplicate_drops_broader_entry (a b : DomainEntry) (file : gostring) :
  DomainEntry_Matches a (Name b) = true ->
  Name a <> Name b ->
  strings.ToLower (Name a) = Name a ->
  let ctx := {| Domains := [a; b]; FileName := file |} in
  Domains (deduplicate ctx) = [b] /\
  blocked (Filter_Matches ctx (Name a)) = true /\
  blocked (Filter_Matches (deduplicate ctx) (Name a)) = false.
Proof.
  intros Hab Hne Hlow ctx. unfold ctx. split; [|split].
  - simpl. rewrite Hab. reflexivity.
  - unfold Filter_Matches. simpl. rewrite Hlow, DomainEntry_Matches_own_name.
    reflexivity.
  - unfold Filter_Matches. simpl. rewrite Hab. simpl. rewrite Hlow.
    destruct (DomainEntry_Matches b (Name a)) eqn:Hba; [|reflexivity].
    exfalso. apply Hne.
    apply DomainEntry_Matches_suffix in Hab, Hba.
    apply (anti_symm suffix); assumption.
Qed.

Lemma lower_byte_not_upper (c : byte) :
  ~ (65 <= int_of_byte (strings.lower_byte c) <= 90).
Proof.
  unfold strings.lower_byte. pose proof (int_of_byte_range c) as Hc.
  destruct (Z.leb_spec 65 (int_of_byte c)), (Z.leb_spec (int_of_byte c) 90);
    simpl; try lia.
  rewrite int_of_byte_of_int; lia.
Qed.

Lemma lower_byte_idempotent (c : byte) :
  strings.lower_byte (strings.lower_byte c) = strings.lower_byte c.
Proof.
  pose proof (lower_byte_not_upper c) as Hn.
  unfold strings.lower_byte at 1.
  destruct (Z.leb_spec 65 (int_of_byte (strings.lower_byte c))),
           (Z.leb_spec (int_of_byte (strings.lower_byte c)) 90);
    simpl; (reflexivity || lia).
Qed.

Lemma lower_byte_ascii (c : byte) :
  int_of_byte c < 128 -> int_of_byte (strings.lower_byte c) < 128.
Proof.
  intros Hc. unfold strings.lower_byte.
  destruct (Z.leb_spec 65 (int_of_byte c)), (Z.leb_spec (int_of_byte c) 90);
    simpl; try lia.
  rewrite int_of_byte_of_int; lia.
Qed.

Lemma ToLower_ascii (h : gostring) :
  strings.isASCII h = true -> strings.ToLower h = strings.lower_byte <$> h.
Proof. intros Hh. unfold strings.ToLower. rewrite Hh. reflexivity. Qed.

Lemma isASCII_lower (h : gostring) :
  strings.isASCII h = true -> strings.isASCII (strings.lower_byte <$> h) = true.
Proof.
  unfold strings.isASCII. induction h as [|c h IH]; [reflexivity|]. simpl.
  rewrite !andb_true_iff. intros [Hc Hh]. split; [|apply IH, Hh].
  apply Z.ltb_lt. apply lower_byte_ascii. apply Z.ltb_lt. exact Hc.
Qed.

Lemma ToLower_idempotent_ascii (h : gostring) :
  strings.isASCII h = true ->
  strings.ToLower (strings.ToLower h) = strings.ToLower h.
Proof.
  intros Hh. rewrite (ToLower_ascii h Hh).
  rewrite (ToLower_ascii _ (isASCII_lower h Hh)).
  rewrite <- list_fmap_compose. apply list_fmap_ext.
  intros i c _. simpl. apply lower_byte_idempotent.
Qed.

(** X7. For an ASCII host the lookup does not depend on the case of the
    query: the host and its lowercase form get the same answer. *)
Theorem Filter_Matches_case_insensitive (ctx : Filter) (h : gostring) :
  strings.isASCII h = true ->
  Filter_Matches ctx (strings.ToLower h) = Filter_Matches ctx h.
Proof.
  intros Hh. unfold Filter_Matches. generalize (@None DomainEntry).
  induction (Domains ctx) as [|e rest IH]; intros lastv; simpl; [reflexivity|].
  rewrite (ToLower_idempotent_ascii h Hh).
  destruct (DomainEntry_Matches e (strings.ToLower h)); [reflexivity|apply IH].
Qed.

(** X8. The entry's name is compared as stored. An entry whose name holds an
    upper-case ASCII letter, which JSON ingest does not lowercase, matches
    no ASCII host at all in a lookup. *)
Theorem upper_case_entry_never_matches (e : DomainEntry) (h : gostring) (c : byte) :
  strings.isASCII h = true ->
  c ∈ Name e -> 65 <= int_of_byte c <= 90 ->
  DomainEntry_Matches e (strings.ToLower h) = false.
Proof.
  intros Hh Hc Hupper.
  destruct (DomainEntry_Matches e (strings.ToLower h)) eqn:Hm; [|reflexivity].
  exfalso. apply DomainEntry_Matches_suffix in Hm. destruct Hm as [k Hk].
  rewrite (ToLower_ascii h Hh) in Hk.
  assert (Hin : c ∈ strings.lower_byte <$> h).
  { rewrite Hk. apply elem_of_app. right. exact Hc. }
  apply list_elem_of_fmap in Hin. destruct Hin as (c' & -> & _).
  exact (lower_byte_not_upper c' Hupper).
Qed.

(** X9. A lookup that answers true stops at the first entry, in stored
    order, that matches the lowercased host: no entry before it matches,
    the loop variable ends as that entry with one more hit, and the
    receiver is what it was. *)
Theorem Filter_Matches_first_match (ctx : Filter) (h : gostring) :
  blocked (Filter_Matches ctx h) = true ->
  exists before e after,
    Domains ctx = before ++ e :: after /\
    Forall (fun b => DomainEntry_Matches b (strings.ToLower h) = false) before /\
    DomainEntry_Matches e (strings.ToLower h) = true /\
    loopvar (Filter_Matches ctx h)
    = Some {| Name := Name e; Hits := wrap_int (Hits e + 1) |} /\
    receiver (Filter_Matches ctx h) = ctx.
Proof.
  intros Hb. unfold Filter_Matches in *.
  destruct (Matches_range_first ctx (Domains ctx) h None Hb)
    as (before & e & after & Hd & Hbefore & Hm & Hl).
  exists before, e, after. repeat split; try assumption.
  apply Matches_range_receiver.
Qed.

End FilterCoverage.

Lemma deduplicate_blocks_no_more_witness :
  blocked (@Filter_Matches scenario.ascii_tables
             {| Domains := [ {| Name := str "a.com"; Hits := 0 |};
                             {| Name := str "sub.a.com"; Hits := 0 |} ];
                FileName := [] |} (str "x.sub.a.com")) = true.
Proof.
  apply (@deduplicate_blocks_no_more scenario.ascii_tables). reflexivity.
Defined.

Lemma deduplicate_drops_broader_entry_witness :
  blocked (@Filter_Matches scenario.ascii_tables
             (deduplicate
                {| Domains := [ {| Name := str "a.com"; Hits := 0 |};
                                {| Name := str "sub.a.com"; Hits := 0 |} ];
                   FileName := [] |}) (str "a.com")) = false.
Proof.
  refine (proj2 (proj2 (@deduplicate_drops_broader_entry scenario.ascii_tables
                          {| Name := str "a.com"; Hits := 0 |}
                          {| Name := str "sub.a.com"; Hits := 0 |} [] _ _ _)));
    [reflexivity|discriminate|reflexivity].
Defined.

Lemma Filter_Matches_case_insensitive_witness :
  @Filter_Matches scenario.ascii_tables
    {| Domains := [ {| Name := str "badhost.com"; Hits := 0 |} ]; FileName := [] |}
    (@strings.ToLower scenario.ascii_tables (str "BadHost.COM"))
  = @Filter_Matches scenario.ascii_tables
      {| Domains := [ {| Name := str "badhost.com"; Hits := 0 |} ]; FileName := [] |}
      (str "BadHost.COM").
Proof. apply (@Filter_Matches_case_insensitive scenario.ascii_tables). reflexivity. Defined.

Lemma upper_case_entry_never_matches_witness :
  DomainEntry_Matches {| Name := str "BadHost.com"; Hits := 0 |}
    (@strings.ToLower scenario.ascii_tables (str "BadHost.com")) = false.
Proof.
  apply (@upper_case_entry_never_matches scenario.ascii_tables _ _ "B"%byte);
    [reflexivity|left|vm_compute; split; discriminate].
Defined.

Lemma Filter_Matches_first_match_witness :
  loopvar (@Filter_Matches scenario.ascii_tables
             {| Domains := [ {| Name := str "a.com"; Hits := 4 |};
                             {| Name := str "b.com"; Hits := 1 |};
                             {| Name := str "w.b.com"; Hits := 0 |} ];
                FileName := [] |} (str "w.b.com"))
  = Some {| Name := str "b.com"; Hits := 2 |}.
Proof.
  destruct (@Filter_Matches_first_match scenario.ascii_tables
              {| Domains := [ {| Name := str "a.com"; Hits := 4 |};
                              {| Name := str "b.com"; Hits := 1 |};
                              {| Name := str "w.b.com"; Hits := 0 |} ];
                 FileName := [] |} (str "w.b.com") eq_refl)
    as (before & e & after & _ & _ & _ & Hl & _).
  reflexivity.
Defined.

(** ** Line-format ingest, further *)

Section LineIngestMore.
Context `{Unicode} `{World}.

(** The second loop panics only on a line that is not empty and trims
    to nothing. *)
Lemma parse_lines_panics (list_ : list gostring) :
  forall domains p,
    parse_lines list_ domains = Panic p ->
    exists line, line ∈ list_ /\ line <> [] /\
                 strings.ToLower (strings.Trim line x20) = [].
Proof.
  induction list_ as [|head rest IH]; intros domains p; simpl; [discriminate|].
  destruct (Z.eqb_spec (len head) 0) as [Hz|Hnz].
  - intros Hp. destruct (IH _ _ Hp) as (line & Hin & Hrest).
    exists line. split; [right; exact Hin|exact Hrest].
  - destruct (strings.ToLower (strings.Trim head x20)) as [|c tl] eqn:Hhead.
    + intros _. exists head. split; [left|]. split; [|exact Hhead].
      intros ->. apply Hnz. reflexivity.
    + intros Hp.
      assert (Hex : exists line, line ∈ rest /\ line <> [] /\
                      strings.ToLower (strings.Trim line x20) = []).
      { destruct (Byte.eqb c x23); eapply IH; exact Hp. }
      destruct Hex as (line & Hin & Hrest).
      exists line. split; [right; exact Hin|exact Hrest].
Qed.

(** Line ingest panics exactly when one of the lines the first loop
    collected is made of spaces only (trims to the empty string); on every
    other input it returns. *)
Lemma load_lines_panics_iff (ctx : Filter) (data : list byte) :
  load_lines ctx data = Panic (IndexOutOfRange 0 0) <->
  exists line, line ∈ fst (split_lines data [] [] 0) /\ line <> [] /\
               strings.ToLower (strings.Trim line x20) = [].
Proof.
  unfold load_lines.
  destruct (split_lines data [] [] 0) as [list_ count]. simpl. split.
  - intros Hp. destruct (parse_lines list_ (Domains ctx)) as [d|p] eqn:Hparse;
      [discriminate|].
    eapply parse_lines_panics. exact Hparse.
  - intros (line & Hin & Hne & Hblank).
    rewrite (parse_lines_blank list_ (Domains ctx) line Hin Hne Hblank). reflexivity.
Qed.

Lemma load_lines_returns_or_panics (ctx : Filter) (data : list byte) :
  (exists count ctx', load_lines ctx data = Ok (true, count, ctx')) \/
  load_lines ctx data = Panic (IndexOutOfRange 0 0).
Proof.
  unfold load_lines. destruct (split_lines data [] [] 0) as [list_ count].
  destruct (parse_lines list_ (Domains ctx)) as [d|p] eqn:Hparse.
  - left. eexists _, _. reflexivity.
  - right. destruct (parse_lines_panics _ _ _ Hparse) as (line & Hin & Hne & Hb).
    rewrite (parse_lines_blank list_ (Domains ctx) line Hin Hne Hb) in Hparse.
    congruence.
Qed.

(** Fields cut at a separator do not hold the separator. *)
Lemma genSplit_fields (s : gostring) (sep : byte) :
  forall field, sep ∉ field ->
    Forall (fun f => sep ∉ f) (strings.genSplit s sep field).
Proof.
  induction s as [|x s IH]; intros field Hfield; simpl.
  - constructor; [exact Hfield|constructor].
  - destruct (Byte.eqb x sep) eqn:Hx.
    + constructor; [exact Hfield|]. apply IH. apply not_elem_of_nil.
    + apply IH. rewrite elem_of_app, list_elem_of_singleton.
      intros [Hin | Heq]; [exact (Hfield Hin)|]. rewrite <- Heq in Hx.
      assert (Hsep : Byte.eqb sep sep = true) by (apply Byte.byte_dec_lb; reflexivity).
      congruence.
Qed.

Lemma genSplit_nonempty (s : gostring) (sep : byte) :
  forall field, 1 <= len (strings.genSplit s sep field).
Proof.
  induction s as [|x s IH]; intros field; simpl.
  - unfold len. simpl. lia.
  - destruct (Byte.eqb x sep); [|apply IH].
    specialize (IH []). unfold len in *. simpl length. lia.
Qed.

(** A string cut into a single field holds no separator. *)
Lemma genSplit_single (s : gostring) (sep : byte) :
  forall field, len (strings.genSplit s sep field) <= 1 -> sep ∉ s.
Proof.
  induction s as [|x s IH]; intros field Hlen; simpl in Hlen.
  - apply not_elem_of_nil.
  - destruct (Byte.eqb x sep) eqn:Hx.
    + exfalso. pose proof (genSplit_nonempty s sep []) as Hne.
      unfold len in *. simpl length in Hlen. lia.
    + rewrite not_elem_of_cons. split; [|eapply IH; exact Hlen].
      intros Heq. rewrite <- Heq in Hx.
      assert (Hsep : Byte.eqb sep sep = true) by (apply Byte.byte_dec_lb; reflexivity).
      congruence.
Qed.

(** What the second loop adds: entries with no hits whose name holds no
    space. *)
Lemma parse_lines_entries (list_ : list gostring) :
  forall domains domains',
    parse_lines list_ domains = Ok domains' ->
    exists added,
      domains' = domains ++ added /\
      len added <= len list_ /\
      Forall (fun e => Hits e = 0 /\ x20 ∉ Name e) added.
Proof.
  induction list_ as [|line rest IH]; intros domains domains'; simpl.
  - intros [= <-]. exists []. rewrite app_nil_r. repeat split; [reflexivity|constructor].
  - assert (Hlen : len (line :: rest) = len rest + 1)
      by (unfold len; simpl length; lia).
    assert (Hskip : parse_lines rest domains = Ok domains' ->
              exists added, domains' = domains ++ added /\
                len added <= len (line :: rest) /\
                Forall (fun e => Hits e = 0 /\ x20 ∉ Name e) added).
    { intros Hp. destruct (IH _ _ Hp) as (added & Hd & Hl & Hall).
      exists added. repeat split; [exact Hd|lia|exact Hall]. }
    destruct (len line =? 0); [exact Hskip|].
    destruct (strings.ToLower (strings.Trim line x20)) as [|c tl] eqn:Hline;
      [discriminate|].
    destruct (Byte.eqb c x23); [exact Hskip|].
    intros Hp. destruct (IH _ _ Hp) as (added & Hd & Hl & Hall).
    eexists (_ :: added). rewrite <- app_assoc in Hd. split; [exact Hd|].
    split; [unfold len in *; simpl length; lia|].
    constructor; [|exact Hall]. simpl. split; [reflexivity|].
    destruct (Z.gtb_spec (len (strings.Split (c :: tl) x20)) 1) as [Hmany|Hone].
    + assert (Hfields := genSplit_fields (c :: tl) x20 [] (not_elem_of_nil _)).
      fold (strings.Split (c :: tl) x20) in Hfields.
      rewrite Forall_forall in Hfields.
      destruct (nth_in_or_default (Z.to_nat (len (strings.Split (c :: tl) x20) - 1))
                  (strings.Split (c :: tl) x20) []) as [Hin | ->].
      * apply Hfields. apply list_elem_of_In. exact Hin.
      * apply not_elem_of_nil.
    + eapply genSplit_single. exact Hone.
Qed.

(** The first loop counts the lines it collects, and collects at most
    one line per byte. *)
Lemma split_lines_count (data : list byte) :
  forall temp list_ count,
    0 <= count -> count + len data < 2 ^ 63 ->
    snd (split_lines data temp list_ count) - count
    = len (fst (split_lines data temp list_ count)) - len list_ /\
    count <= snd (split_lines data temp list_ count) <= count + len data.
Proof.
  induction data as [|char data IH]; intros temp list_ count Hc Hbound; simpl.
  - unfold len. simpl. lia.
  - assert (Hlen : len (char :: data) = len data + 1)
      by (unfold len; simpl length; lia).
    pose proof (len_nonneg data) as Hnn.
    assert (Hkeep : forall t,
               snd (split_lines data t list_ count) - count
               = len (fst (split_lines data t list_ count)) - len list_ /\
               count <= snd (split_lines data t list_ count) <= count + len (char :: data)).
    { intros t. destruct (IH t list_ count Hc ltac:(lia)) as [H1 H2]. split; lia. }
    destruct (negb (Byte.eqb char x0a) && negb (Byte.eqb char x0d)); [apply Hkeep|].
    destruct (len temp =? 0); [apply Hkeep|].
    destruct (len (strings.ToLower temp) >? 0); [|apply Hkeep].
    rewrite (wrap_int_small (count + 1)) by lia.
    destruct (IH [] (list_ ++ [strings.ToLower temp]) (count + 1) ltac:(lia) ltac:(lia))
      as [H1 H2].
    rewrite len_app in H1. change (len [strings.ToLower temp]) with 1 in H1.
    split; lia.
Qed.

(** A load that returns reports success and a count between zero and
    the number of bytes read; it adds at most that many entries, each
    with no hits and a name without a space, and keeps the remembered
    path. The count is the number of lines, comments included, not the
    number of entries. *)
Lemma load_lines_result (ctx ctx' : Filter) (data : list byte) (ok : bool)
    (count : Z) :
  len data < 2 ^ 63 ->
  load_lines ctx data = Ok (ok, count, ctx') ->
  ok = true /\
  0 <= count <= len data /\
  len (Domains ctx') <= len (Domains ctx) + count /\
  FileName ctx' = FileName ctx /\
  Forall (fun e => e ∈ Domains ctx \/ (Hits e = 0 /\ x20 ∉ Name e)) (Domains ctx').
Proof.
  intros Hbound. unfold load_lines.
  pose proof (split_lines_count data [] [] 0 ltac:(lia) ltac:(lia)) as [Hcount Hrange].
  destruct (split_lines data [] [] 0) as [list_ n]. simpl in Hcount, Hrange.
  change (len (@nil gostring)) with 0 in Hcount.
  destruct (parse_lines list_ (Domains ctx)) as [domains|p] eqn:Hparse; [|discriminate].
  intros [= <- <- <-].
  destruct (parse_lines_entries _ _ _ Hparse) as (added & -> & Hadded & Hall).
  split; [reflexivity|]. split; [lia|]. simpl.
  pose proof (deduplicate_range_sublist (Domains ctx ++ added)) as Hsub.
  split; [|split; [reflexivity|]].
  - apply sublist_length in Hsub. rewrite length_app in Hsub.
    unfold len in *. lia.
  - rewrite Forall_forall. intros e He.
    apply (elem_of_sublist _ _ _ He) in Hsub.
    apply elem_of_app in Hsub. destruct Hsub as [Hold|Hnew]; [left; exact Hold|].
    right. rewrite Forall_forall in Hall. apply Hall. exact Hnew.
Qed.



(** Every line the first loop collects holds at least one byte. *)
Lemma split_lines_nonempty (data : list byte) :
  forall temp list_ count,
    Forall (fun line => line <> []) list_ ->
    Forall (fun line => line <> []) (fst (split_lines data temp list_ count)).
Proof.
  induction data as [|char data IH]; intros temp list_ count Hall; simpl; [exact Hall|].
  destruct (negb (Byte.eqb char x0a) && negb (Byte.eqb char x0d)); [apply IH; exact Hall|].
  destruct (len temp =? 0); [apply IH; exact Hall|].
  destruct (Z.gtb_spec (len (strings.ToLower temp)) 0) as [Hpos|Hzero];
    [|apply IH; exact Hall].
  apply IH. apply Forall_app. split; [exact Hall|].
  constructor; [|constructor]. intros Hnil. rewrite Hnil in Hpos.
  unfold len in Hpos. simpl in Hpos. lia.
Qed.

(** On lines that hold at least one byte, the second loop turns every
    line that is not a comment into one entry. *)
Lemma parse_lines_count (list_ : list gostring) :
  forall domains domains',
    Forall (fun line => line <> []) list_ ->
    parse_lines list_ domains = Ok domains' ->
    exists added,
      domains' = domains ++ added /\
      len list_ = len added + len (List.filter is_comment_line list_).
Proof.
  induction list_ as [|line rest IH]; intros domains domains' Hall; simpl.
  - intros [= <-]. exists []. rewrite app_nil_r. split; reflexivity.
  - apply Forall_cons in Hall. destruct Hall as [Hline Hrest].
    assert (Hlen : len (line :: rest) = len rest + 1)
      by (unfold len; simpl length; lia).
    destruct (Z.eqb_spec (len line) 0) as [Hz|_].
    { apply len_zero_nil in Hz. contradiction. }
    unfold is_comment_line at 1.
    destruct (strings.ToLower (strings.Trim line x20)) as [|c tl] eqn:Htrim;
      [discriminate|].
    destruct (Byte.eqb c x23).
    + intros Hp. destruct (IH _ _ Hrest Hp) as (added & Hd & Hn).
      exists added. split; [exact Hd|].
      rewrite Hlen, Hn. unfold len. simpl length. lia.
    + intros Hp. destruct (IH _ _ Hrest Hp) as (added & Hd & Hn).
      eexists (_ :: added). rewrite <- app_assoc in Hd. split; [exact Hd|].
      rewrite Hlen, Hn. unfold len. simpl length. lia.
Qed.

(** The count a load returns is the number of lines the first loop
    collected: the entries appended before deduplication and the comment
    lines together. *)
Lemma load_lines_count (ctx ctx' : Filter) (data : list byte) (ok : bool)
    (count : Z) :
  len data < 2 ^ 63 ->
  load_lines ctx data = Ok (ok, count, ctx') ->
  count = len (fst (split_lines data [] [] 0)) /\
  exists added,
    ctx' = deduplicate {| Domains := Domains ctx ++ added; FileName := FileName ctx |} /\
    count = len added
            + len (List.filter is_comment_line (fst (split_lines data [] [] 0))).
Proof.
  intros Hbound. unfold load_lines.
  pose proof (split_lines_count data [] [] 0 ltac:(lia) ltac:(lia)) as [Hcount _].
  pose proof (split_lines_nonempty data [] [] 0 (Forall_nil_2 _)) as Hlines.
  destruct (split_lines data [] [] 0) as [list_ n]. simpl in Hcount, Hlines |- *.
  change (len (@nil gostring)) with 0 in Hcount.
  destruct (parse_lines list_ (Domains ctx)) as [domains|p] eqn:Hparse; [|discriminate].
  intros [= <- <- <-].
  destruct (parse_lines_count _ _ _ Hlines Hparse) as (added & -> & Hn).
  split; [lia|]. exists added. split; [reflexivity|]. lia.
Qed.

(** X10. [LoadListFile] and [LoadHTTP] panic exactly when one of the lines
    the first loop collected from the bytes read is made of spaces only
    (it is not empty and trims to the empty string); on every other input
    they return: with success and a count when the bytes were read and no
    such line is among them, with false, a count of zero and the filter as
    it was when the bytes could not be had. *)
Theorem line_ingest_panics_iff (ctx : Filter) (path : gostring) (data : list byte) :
  (os_file path = Contents data ->
   (LoadListFile ctx path = Panic (IndexOutOfRange 0 0) <->
    exists line, line ∈ fst (split_lines data [] [] 0) /\ line <> [] /\
                 strings.ToLower (strings.Trim line x20) = []) /\
   (~ (exists line, line ∈ fst (split_lines data [] [] 0) /\ line <> [] /\
                    strings.ToLower (strings.Trim line x20) = []) ->
    exists count ctx', LoadListFile ctx path = Ok (true, count, ctx'))) /\
  (http_fetch path = Body data ->
   (LoadHTTP ctx path = Panic (IndexOutOfRange 0 0) <->
    exists line, line ∈ fst (split_lines data [] [] 0) /\ line <> [] /\
                 strings.ToLower (strings.Trim line x20) = []) /\
   (~ (exists line, line ∈ fst (split_lines data [] [] 0) /\ line <> [] /\
                    strings.ToLower (strings.Trim line x20) = []) ->
    exists count ctx', LoadHTTP ctx path = Ok (true, count, ctx'))) /\
  ((forall bytes, os_file path <> Contents bytes) ->
   LoadListFile ctx path = Ok (false, 0, ctx)) /\
  ((forall bytes, http_fetch path <> Body bytes) ->
   LoadHTTP ctx path = Ok (false, 0, ctx)).
Proof.
  split; [|split; [|split]].
  - intros Hsrc. unfold LoadListFile. rewrite Hsrc.
    split; [apply load_lines_panics_iff|]. intros Hclean.
    destruct (load_lines_returns_or_panics ctx data) as [Hret|Hpanic]; [exact Hret|].
    exfalso. apply Hclean. apply (load_lines_panics_iff ctx data). exact Hpanic.
  - intros Hsrc. unfold LoadHTTP. rewrite Hsrc.
    split; [apply load_lines_panics_iff|]. intros Hclean.
    destruct (load_lines_returns_or_panics ctx data) as [Hret|Hpanic]; [exact Hret|].
    exfalso. apply Hclean. apply (load_lines_panics_iff ctx data). exact Hpanic.
  - intros Hno. unfold LoadListFile.
    destruct (os_file path) as [| | |bytes] eqn:Hfile; try reflexivity.
    exfalso. apply (Hno bytes). reflexivity.
  - intros Hno. unfold LoadHTTP.
    destruct (http_fetch path) as [| |bytes] eqn:Hfetch; try reflexivity.
    exfalso. apply (Hno bytes). reflexivity.
Qed.

(** X11. When [LoadListFile] or [LoadHTTP] has read the bytes and returns, it
    reports success and a count between zero and the number of bytes; it
    has added at most that many entries, each with no hits and a name
    that holds no space, and the remembered path is unchanged. The count
    is the number of lines the first loop collected, comment lines
    included, not the number of entries added: it is the number of
    entries appended before deduplication plus the number of comment
    lines. *)
Theorem line_ingest_result (ctx ctx' : Filter) (path : gostring) (data : list byte)
    (ok : bool) (count : Z) :
  len data < 2 ^ 63 ->
  (os_file path = Contents data /\ LoadListFile ctx path = Ok (ok, count, ctx')) \/
  (http_fetch path = Body data /\ LoadHTTP ctx path = Ok (ok, count, ctx')) ->
  ok = true /\
  0 <= count <= len data /\
  len (Domains ctx') <= len (Domains ctx) + count /\
  FileName ctx' = FileName ctx /\
  Forall (fun e => e ∈ Domains ctx \/ (Hits e = 0 /\ x20 ∉ Name e)) (Domains ctx') /\
  count = len (fst (split_lines data [] [] 0)) /\
  exists added,
    ctx' = deduplicate {| Domains := Domains ctx ++ added; FileName := FileName ctx |} /\
    count = len added
            + len (List.filter is_comment_line (fst (split_lines data [] [] 0))).
Proof.
  intros Hbound Hrun.
  assert (Hload : load_lines ctx data = Ok (ok, count, ctx')).
  { destruct Hrun as [[Hsrc Hrun] | [Hsrc Hrun]].
    - unfold LoadListFile in Hrun. rewrite Hsrc in Hrun. exact Hrun.
    - unfold LoadHTTP in Hrun. rewrite Hsrc in Hrun. exact Hrun. }
  destruct (load_lines_result ctx ctx' data ok count Hbound Hload)
    as (Hok & Hrange & Hgrow & Hname & Hall).
  destruct (load_lines_count ctx ctx' data ok count Hbound Hload) as (Hlines & Hadded).
  repeat (split; [assumption|]). exact Hadded.
Qed.

End LineIngestMore.

Lemma line_ingest_panics_iff_witness :
  exists count ctx',
    @LoadListFile scenario.ascii_tables
      (scenario.serving (str "a.com" ++ [x0a])) scenario.empty_filter (str "hosts.txt")
    = Ok (true, count, ctx').
Proof.
  destruct (@line_ingest_panics_iff scenario.ascii_tables
              (scenario.serving (str "a.com" ++ [x0a])) scenario.empty_filter
              (str "hosts.txt") (str "a.com" ++ [x0a])) as (Hfile & _).
  apply (Hfile eq_refl).
  intros (line & Hin & _ & Hblank).
  vm_compute in Hin. inversion Hin as [|? ? ? Hin']; subst; [discriminate|inversion Hin'].
Defined.

Lemma line_ingest_result_witness :
  let data := str "# two hosts" ++ [x0a] ++ str "0.0.0.0 a.com" ++ [x0a]
              ++ str "b.com" ++ [x0a] in
  @LoadListFile scenario.ascii_tables (scenario.serving data) scenario.empty_filter
    (str "hosts.txt")
  = Ok (true, 3, {| Domains := [ {| Name := str "a.com"; Hits := 0 |};
                                 {| Name := str "b.com"; Hits := 0 |} ];
                   FileName := [] |}) /\
  3 = len (fst (@split_lines scenario.ascii_tables data [] [] 0)) /\
  exists added : list DomainEntry,
    3 = len added
        + len (List.filter (@is_comment_line scenario.ascii_tables)
                 (fst (@split_lines scenario.ascii_tables data [] [] 0))).
Proof.
  cbv zeta. split; [reflexivity|].
  pose proof (@line_ingest_result scenario.ascii_tables
                (scenario.serving
                   (str "# two hosts" ++ [x0a] ++ str "0.0.0.0 a.com" ++ [x0a]
                    ++ str "b.com" ++ [x0a]))
                scenario.empty_filter
                {| Domains := [ {| Name := str "a.com"; Hits := 0 |};
                                {| Name := str "b.com"; Hits := 0 |} ];
                   FileName := [] |}
                (str "hosts.txt")
                (str "# two hosts" ++ [x0a] ++ str "0.0.0.0 a.com" ++ [x0a]
                 ++ str "b.com" ++ [x0a]) true 3
                ltac:(vm_compute; reflexivity)
                (or_introl (conj eq_refl eq_refl)))
    as (_ & _ & _ & _ & _ & Hlines & added & _ & Hcount).
  split; [exact Hlines|]. exists added. exact Hcount.
Defined.

(** ** The inbound handshake parser, further *)

Section InboundMore.
Variable c0 : ClientCtx.

Lemma append_Remote_Host_parsed (input : list byte) (w : Writer) (rd : list byte)
    (h : gostring) (p : Z) (s : gostring) :
  append_Remote_Host (parsed c0 input w rd h p) s = parsed c0 input w rd (h ++ s) p.
Proof. reflexivity. Qed.

Lemma Byte_eqb_neq (x y : byte) : x <> y -> Byte.eqb x y = false.
Proof.
  intros Hne. destruct (Byte.eqb x y) eqn:Heq; [|reflexivity].
  apply Byte.byte_dec_bl in Heq. contradiction.
Qed.

Ltac eval_closed_tests :=
  repeat match goal with
         | |- context [Byte.eqb ?a ?b] =>
             let v := eval vm_compute in (Byte.eqb a b) in
             progress change (Byte.eqb a b) with v
         | |- context [wrap_int (Z.pos ?q - 1)] =>
             let v := eval vm_compute in (wrap_int (Z.pos q - 1)) in
             change (wrap_int (Z.pos q - 1)) with v
         | |- context [Z.pos ?q =? 0] => change (Z.pos q =? 0) with false
         | |- context [0 =? 0] => change (0 =? 0) with true
         | |- context [(Z.pos ?q >? 0) && (Z.rem (Z.pos ?q) 2 =? 0)] =>
             let v := eval vm_compute in ((Z.pos q >? 0) && (Z.rem (Z.pos q) 2 =? 0)) in
             change ((Z.pos q >? 0) && (Z.rem (Z.pos q) 2 =? 0)) with v
         | |- context [(0 >? 0) && (Z.rem 0 2 =? 0)] =>
             change ((0 >? 0) && (Z.rem 0 2 =? 0)) with false
         end;
  cbv iota.

Ltac parser_step :=
  rewrite (inbound_loop_read c0) by lia;
  cbv beta iota zeta delta [inbound_switch];
  eval_closed_tests;
  rewrite ?(append_RequestData_parsed c0), ?append_Remote_Host_parsed;
  cbn [app].

(** The bytes of a domain name go to the destination host as they are. *)
Lemma inbound_domain_phase (name : list byte) :
  name <> [] -> len name <= 255 ->
  forall rest w rd h p err,
    inbound_loop (name ++ rest) 10 (len name) (parsed c0 (name ++ rest) w rd h p) err
    = inbound_loop rest 12 2 (parsed c0 rest w (rd ++ name) (h ++ name) p) None.
Proof.
  induction name as [|a t IH]; [congruence|].
  intros _ Hlen rest w rd h p err.
  change ((a :: t) ++ rest) with (a :: (t ++ rest)).
  rewrite (inbound_loop_read c0) by lia.
  cbv beta iota zeta delta [inbound_switch].
  rewrite ?(append_RequestData_parsed c0), ?append_Remote_Host_parsed.
  assert (Hk : wrap_int (len (a :: t) - 1) = len t).
  { rewrite wrap_int_small; unfold len in *; simpl length in *; lia. }
  rewrite Hk. destruct t as [|b t'].
  - reflexivity.
  - assert (Hnz : (len (b :: t') =? 0) = false).
    { apply Z.eqb_neq. unfold len. simpl length. lia. }
    rewrite Hnz, IH; [|discriminate|unfold len in *; simpl length in *; lia].
    rewrite <- !app_assoc. reflexivity.
Qed.

(** An address type other than 1, 3 and 4 is not refused: state 7 keeps
    the byte in the request data and waits for the next one. *)
Lemma inbound_unknown_types (junk : list byte) :
  Forall (fun c => c <> x01 /\ c <> x03 /\ c <> x04) junk ->
  forall tail w rd h p k,
    inbound_loop (junk ++ tail) 7 k (parsed c0 (junk ++ tail) w rd h p) None
    = inbound_loop tail 7 k (parsed c0 tail w (rd ++ junk) h p) None.
Proof.
  induction 1 as [|c junk (H1 & H3 & H4) _ IH]; intros tail w rd h p k.
  - rewrite app_nil_r. reflexivity.
  - change ((c :: junk) ++ tail) with (c :: (junk ++ tail)).
    rewrite (inbound_loop_read c0) by lia.
    cbv beta iota zeta delta [inbound_switch].
    rewrite (Byte_eqb_neq c x01 H1), (Byte_eqb_neq c x03 H3), (Byte_eqb_neq c x04 H4).
    cbv iota. rewrite (append_RequestData_parsed c0), IH, <- app_assoc. reflexivity.
Qed.

(** From the greeting to the reserved byte of the request. *)
Lemma inbound_loop_header (methods : list byte) (rsv : byte) (tail : list byte) :
  1 <= len methods <= 255 ->
  inbound_loop (greeting methods ++ [x05; x01; rsv] ++ tail) 0 0
    (parsed c0 (greeting methods ++ [x05; x01; rsv] ++ tail) (new_Writer false) [] [] 0)
    None
  = inbound_loop tail 7 0
      (parsed c0 tail
         {| unflushed := []; wire := [x05; x00]; broken := false; werr := false |}
         [rsv] [] 0) None.
Proof.
  intros Hm. unfold greeting. cbn [app].
  parser_step. parser_step.
  rewrite int_of_byte_of_int by lia.
  assert (Hpos : (len methods >? 0) = true) by (apply Z.gtb_lt; lia).
  rewrite Hpos.
  rewrite (inbound_methods_phase c0);
    [|intros ->; unfold len in Hm; simpl in Hm; lia|lia].
  do 3 parser_step. reflexivity.
Qed.

(** A command other than CONNECT ends the parse after the method reply
    has gone out; nothing else is written. *)
Lemma inbound_loop_other_command (methods : list byte) (cmd : byte)
    (rest : list byte) :
  1 <= len methods <= 255 -> cmd <> x01 ->
  inbound_loop (greeting methods ++ [x05; cmd] ++ rest) 0 0
    (parsed c0 (greeting methods ++ [x05; cmd] ++ rest) (new_Writer false) [] [] 0)
    None
  = (parsed c0 rest
       {| unflushed := []; wire := [x05; x00]; broken := false; werr := false |}
       [] [] 0,
     Some (invalid_data 5 (Connection.Host (Client c0)))).
Proof.
  intros Hm Hcmd. unfold greeting. cbn [app].
  parser_step. parser_step.
  rewrite int_of_byte_of_int by lia.
  assert (Hpos : (len methods >? 0) = true) by (apply Z.gtb_lt; lia).
  rewrite Hpos.
  rewrite (inbound_methods_phase c0);
    [|intros ->; unfold len in Hm; simpl in Hm; lia|lia].
  parser_step.
  rewrite (inbound_loop_read c0) by lia.
  cbv beta iota zeta delta [inbound_switch].
  rewrite (Byte_eqb_neq cmd x01 Hcmd). cbv iota.
  rewrite inbound_loop_done by lia. reflexivity.
Qed.

Lemma inbound_loop_domain (methods : list byte) (rsv l : byte) (name : list byte)
    (p1 p2 : byte) (rest : list byte) :
  1 <= len methods <= 255 -> 1 <= len name -> int_of_byte l = len name ->
  inbound_loop
    (greeting methods ++ connect_request rsv x03 (l :: name) p1 p2 ++ rest) 0 0
    (parsed c0 (greeting methods ++ connect_request rsv x03 (l :: name) p1 p2 ++ rest)
       (new_Writer false) [] [] 0) None
  = (parsed c0 rest
       {| unflushed := []; wire := [x05; x00]; broken := false; werr := false |}
       ([rsv; x03; l] ++ name) name (256 * int_of_byte p1 + int_of_byte p2), None).
Proof.
  intros Hm Hname Hl. pose proof (int_of_byte_range l) as Hrange.
  unfold connect_request. rewrite <- !app_assoc.
  change ([x05; x01; rsv; x03] ++ (l :: name) ++ [p1; p2] ++ rest)
    with ([x05; x01; rsv] ++ x03 :: l :: name ++ p1 :: p2 :: rest).
  rewrite inbound_loop_header by exact Hm.
  parser_step. parser_step. rewrite Hl.
  rewrite inbound_domain_phase;
    [|intros ->; unfold len in Hname; simpl in Hname; lia|lia].
  apply inbound_port_phase.
Qed.

Lemma inbound_loop_ipv4 (methods : list byte) (rsv a b c d p1 p2 : byte)
    (rest : list byte) :
  1 <= len methods <= 255 ->
  inbound_loop
    (greeting methods ++ connect_request rsv x01 [a; b; c; d] p1 p2 ++ rest) 0 0
    (parsed c0 (greeting methods ++ connect_request rsv x01 [a; b; c; d] p1 p2 ++ rest)
       (new_Writer false) [] [] 0) None
  = (parsed c0 rest
       {| unflushed := []; wire := [x05; x00]; broken := false; werr := false |}
       [rsv; x01; a; b; c; d]
       (strconv.Itoa (int_of_byte a) ++ str "." ++ strconv.Itoa (int_of_byte b)
        ++ str "." ++ strconv.Itoa (int_of_byte c) ++ str "."
        ++ strconv.Itoa (int_of_byte d))
       (256 * int_of_byte p1 + int_of_byte p2), None).
Proof.
  intros Hm. unfold connect_request. rewrite <- !app_assoc.
  change ([x05; x01; rsv; x01] ++ [a; b; c; d] ++ [p1; p2] ++ rest)
    with ([x05; x01; rsv] ++ x01 :: a :: b :: c :: d :: p1 :: p2 :: rest).
  rewrite inbound_loop_header by exact Hm.
  do 5 parser_step.
  rewrite inbound_port_phase, <- !app_assoc. reflexivity.
Qed.

Lemma inbound_loop_ipv6 (methods : list byte) (rsv : byte)
    (b0 b1 b2 b3 b4 b5 b6 b7 b8 b9 b10 b11 b12 b13 b14 b15 p1 p2 : byte)
    (rest : list byte) :
  1 <= len methods <= 255 ->
  let addr := [b0; b1; b2; b3; b4; b5; b6; b7; b8; b9; b10; b11; b12; b13; b14; b15] in
  inbound_loop (greeting methods ++ connect_request rsv x04 addr p1 p2 ++ rest) 0 0
    (parsed c0 (greeting methods ++ connect_request rsv x04 addr p1 p2 ++ rest)
       (new_Writer false) [] [] 0) None
  = (parsed c0 rest
       {| unflushed := []; wire := [x05; x00]; broken := false; werr := false |}
       ([rsv; x04] ++ addr)
       (hex.EncodeToString [b0; b1] ++ str ":" ++ hex.EncodeToString [b2; b3]
        ++ str ":" ++ hex.EncodeToString [b4; b5] ++ str ":"
        ++ hex.EncodeToString [b6; b7] ++ str ":" ++ hex.EncodeToString [b8; b9]
        ++ str ":" ++ hex.EncodeToString [b10; b11] ++ str ":"
        ++ hex.EncodeToString [b12; b13] ++ str ":" ++ hex.EncodeToString [b14; b15])
       (256 * int_of_byte p1 + int_of_byte p2), None).
Proof.
  intros Hm addr. unfold addr, connect_request. rewrite <- !app_assoc.
  change ([x05; x01; rsv; x04]
          ++ [b0; b1; b2; b3; b4; b5; b6; b7; b8; b9; b10; b11; b12; b13; b14; b15]
          ++ [p1; p2] ++ rest)
    with ([x05; x01; rsv]
          ++ x04 :: b0 :: b1 :: b2 :: b3 :: b4 :: b5 :: b6 :: b7 :: b8 :: b9 :: b10
             :: b11 :: b12 :: b13 :: b14 :: b15 :: p1 :: p2 :: rest).
  rewrite inbound_loop_header by exact Hm.
  do 17 parser_step.
  rewrite inbound_port_phase. reflexivity.
Qed.

(** With bytes that name no address type between the reserved byte and
    a well-formed address, the parse still succeeds. *)
Lemma inbound_loop_unknown_types (methods : list byte) (rsv : byte)
    (junk : list byte) (atyp : byte) (addr : list byte) (p1 p2 : byte)
    (rest : list byte) :
  1 <= len methods <= 255 ->
  Forall (fun c => c <> x01 /\ c <> x03 /\ c <> x04) junk ->
  wire_address atyp addr ->
  exists h,
    inbound_loop
      (greeting methods ++ [x05; x01; rsv] ++ junk ++ atyp :: addr ++ p1 :: p2 :: rest)
      0 0
      (parsed c0
         (greeting methods ++ [x05; x01; rsv] ++ junk ++ atyp :: addr ++ p1 :: p2 :: rest)
         (new_Writer false) [] [] 0) None
    = (parsed c0 rest
         {| unflushed := []; wire := [x05; x00]; broken := false; werr := false |}
         ([rsv] ++ junk ++ atyp :: addr) h (256 * int_of_byte p1 + int_of_byte p2),
       None).
Proof.
  intros Hm Hjunk Haddr.
  rewrite inbound_loop_header by exact Hm.
  rewrite inbound_unknown_types by exact Hjunk.
  set (w1 := {| unflushed := []; wire := [x05; x00]; broken := false; werr := false |}).
  destruct Haddr as [[-> Hlen] | [[-> Hlen] | (-> & l & name & -> & Hl & Hname)]].
  - parser_step. rewrite <- Hlen.
    destruct (inbound_address_phase c0 8 addr) with
      (rest := p1 :: p2 :: rest) (w := w1) (rd := rsv :: junk ++ [x01])
      (h := @nil byte) (p := 0) (err := @None error)
      as [h' ->]; [left; reflexivity| |lia|].
    { intros ->. unfold len in Hlen. simpl in Hlen. lia. }
    exists h'. rewrite inbound_port_phase. cbn [app]. rewrite <- !app_assoc. reflexivity.
  - parser_step. rewrite <- Hlen.
    destruct (inbound_address_phase c0 11 addr) with
      (rest := p1 :: p2 :: rest) (w := w1) (rd := rsv :: junk ++ [x04])
      (h := @nil byte) (p := 0) (err := @None error)
      as [h' ->]; [right; right; reflexivity| |lia|].
    { intros ->. unfold len in Hlen. simpl in Hlen. lia. }
    exists h'. rewrite inbound_port_phase. cbn [app]. rewrite <- !app_assoc. reflexivity.
  - cbn [app]. parser_step. parser_step. rewrite Hl.
    pose proof (int_of_byte_range l) as Hrange.
    rewrite inbound_domain_phase;
      [|intros ->; unfold len in Hname; simpl in Hname; lia|lia].
    eexists. rewrite inbound_port_phase. cbn [app]. rewrite <- !app_assoc. reflexivity.
Qed.

End InboundMore.

(** X12. For a domain name the destination host is the name, byte for byte:
    the parse succeeds, the only bytes written to the client are the
    method reply, and the name is neither lowercased nor checked. *)
Theorem processInbound_domain_host (host : gostring) (port : Z) (fate : error)
    (methods : list byte) (rsv l : byte) (name : list byte) (p1 p2 : byte)
    (rest : list byte) :
  1 <= len methods <= 255 -> 1 <= len name -> int_of_byte l = len name ->
  exists ctx',
    processInbound
      (new_session host port
         {| pending := greeting methods
                       ++ connect_request rsv x03 (l :: name) p1 p2 ++ rest;
            closing := fate |}
         (new_Writer false))
    = (ctx', None) /\
    Connection.Host (Remote ctx') = name /\
    Connection.Port (Remote ctx') = 256 * int_of_byte p1 + int_of_byte p2 /\
    wire (Connection.Writer (Client ctx')) = [x05; x00] /\
    unflushed (Connection.Writer (Client ctx')) = [].
Proof.
  intros Hm Hname Hl.
  set (input := greeting methods ++ connect_request rsv x03 (l :: name) p1 p2 ++ rest).
  set (c0 := new_session host port {| pending := input; closing := fate |}
               (new_Writer false)).
  eexists. split.
  - unfold processInbound.
    change (pending (Connection.Reader (Client c0))) with input.
    change c0 with (parsed c0 input (new_Writer false) [] [] 0) at 1.
    apply inbound_loop_domain; assumption.
  - repeat split.
Qed.

Lemma processInbound_domain_host_witness :
  exists ctx',
    processInbound
      (new_session (str "192.0.2.1") 50000
         {| pending := greeting [x00]
                       ++ connect_request x00 x03 (x07 :: str "Example") x01 xbb ++ [];
            closing := io_EOF |}
         (new_Writer false))
    = (ctx', None) /\
    Connection.Host (Remote ctx') = str "Example".
Proof.
  destruct (processInbound_domain_host (str "192.0.2.1") 50000 io_EOF [x00]
              x00 x07 (str "Example") x01 xbb [])
    as (ctx' & Hrun & Hhost & _).
  - unfold len. simpl. lia.
  - unfold len. simpl. lia.
  - reflexivity.
  - exists ctx'. split; [exact Hrun|exact Hhost].
Defined.

(** X13. For an IPv4 address the destination host is the four bytes in
    decimal, separated by dots. *)
Theorem processInbound_ipv4_host (host : gostring) (port : Z) (fate : error)
    (methods : list byte) (rsv a b c d p1 p2 : byte) (rest : list byte) :
  1 <= len methods <= 255 ->
  exists ctx',
    processInbound
      (new_session host port
         {| pending := greeting methods
                       ++ connect_request rsv x01 [a; b; c; d] p1 p2 ++ rest;
            closing := fate |}
         (new_Writer false))
    = (ctx', None) /\
    Connection.Host (Remote ctx')
    = strconv.Itoa (int_of_byte a) ++ str "." ++ strconv.Itoa (int_of_byte b)
      ++ str "." ++ strconv.Itoa (int_of_byte c) ++ str "."
      ++ strconv.Itoa (int_of_byte d).
Proof.
  intros Hm.
  set (input := greeting methods ++ connect_request rsv x01 [a; b; c; d] p1 p2 ++ rest).
  set (c0 := new_session host port {| pending := input; closing := fate |}
               (new_Writer false)).
  eexists. split.
  - unfold processInbound.
    change (pending (Connection.Reader (Client c0))) with input.
    change c0 with (parsed c0 input (new_Writer false) [] [] 0) at 1.
    apply inbound_loop_ipv4; assumption.
  - reflexivity.
Qed.

Lemma processInbound_ipv4_host_witness :
  exists ctx',
    processInbound
      (new_session (str "192.0.2.1") 50000
         {| pending := greeting [x00]
                       ++ connect_request x00 x01 [xc6; x33; x64; x09] x01 xbb ++ [];
            closing := io_EOF |}
         (new_Writer false))
    = (ctx', None) /\
    Connection.Host (Remote ctx') = str "198.51.100.9".
Proof.
  destruct (processInbound_ipv4_host (str "192.0.2.1") 50000 io_EOF [x00]
              x00 xc6 x33 x64 x09 x01 xbb [])
    as (ctx' & Hrun & Hhost).
  - unfold len. simpl. lia.
  - exists ctx'. split; [exact Hrun|exact Hhost].
Defined.

(** X14. For an IPv6 address the destination host is eight groups of four
    lower-case hexadecimal digits separated by colons; zeros are not
    compressed. *)
Theorem processInbound_ipv6_host (host : gostring) (port : Z) (fate : error)
    (methods : list byte) (rsv : byte)
    (b0 b1 b2 b3 b4 b5 b6 b7 b8 b9 b10 b11 b12 b13 b14 b15 p1 p2 : byte)
    (rest : list byte) :
  1 <= len methods <= 255 ->
  exists ctx',
    processInbound
      (new_session host port
         {| pending :=
              greeting methods
              ++ connect_request rsv x04
                   [b0; b1; b2; b3; b4; b5; b6; b7; b8; b9; b10; b11; b12; b13; b14; b15]
                   p1 p2
              ++ rest;
            closing := fate |}
         (new_Writer false))
    = (ctx', None) /\
    Connection.Host (Remote ctx')
    = hex.EncodeToString [b0; b1] ++ str ":" ++ hex.EncodeToString [b2; b3]
      ++ str ":" ++ hex.EncodeToString [b4; b5] ++ str ":"
      ++ hex.EncodeToString [b6; b7] ++ str ":" ++ hex.EncodeToString [b8; b9]
      ++ str ":" ++ hex.EncodeToString [b10; b11] ++ str ":"
      ++ hex.EncodeToString [b12; b13] ++ str ":" ++ hex.EncodeToString [b14; b15].
Proof.
  intros Hm.
  set (input :=
         greeting methods
         ++ connect_request rsv x04
              [b0; b1; b2; b3; b4; b5; b6; b7; b8; b9; b10; b11; b12; b13; b14; b15]
              p1 p2
         ++ rest).
  set (c0 := new_session host port {| pending := input; closing := fate |}
               (new_Writer false)).
  eexists. split.
  - unfold processInbound.
    change (pending (Connection.Reader (Client c0))) with input.
    change c0 with (parsed c0 input (new_Writer false) [] [] 0) at 1.
    apply (inbound_loop_ipv6 c0 methods rsv b0 b1 b2 b3 b4 b5 b6 b7 b8 b9 b10 b11
             b12 b13 b14 b15 p1 p2 rest Hm).
  - reflexivity.
Qed.

Lemma processInbound_ipv6_host_witness :
  exists ctx',
    processInbound
      (new_session (str "192.0.2.1") 50000
         {| pending :=
              greeting [x00]
              ++ connect_request x00 x04
                   [x20; x01; x0d; xb8; x00; x00; x00; x00;
                    x00; x00; x00; x00; x00; x00; x00; x01] x01 xbb
              ++ [];
            closing := io_EOF |}
         (new_Writer false))
    = (ctx', None) /\
    Connection.Host (Remote ctx') = str "2001:0db8:0000:0000:0000:0000:0000:0001".
Proof.
  destruct (processInbound_ipv6_host (str "192.0.2.1") 50000 io_EOF [x00] x00
              x20 x01 x0d xb8 x00 x00 x00 x00 x00 x00 x00 x00 x00 x00 x00 x01
              x01 xbb [])
    as (ctx' & Hrun & Hhost).
  - unfold len. simpl. lia.
  - exists ctx'. split; [exact Hrun|exact Hhost].
Defined.

(** X15. An address type byte other than 1, 3 and 4 is not a protocol error.
    The parser keeps every such byte in the request data and takes the
    first byte 1, 3 or 4 that follows as the address type; the parse
    succeeds and the request data holds the extra bytes. *)
Theorem processInbound_unknown_address_types (host : gostring) (port : Z)
    (fate : error) (methods : list byte) (rsv : byte) (junk : list byte)
    (atyp : byte) (addr : list byte) (p1 p2 : byte) (rest : list byte) :
  1 <= len methods <= 255 ->
  Forall (fun c => c <> x01 /\ c <> x03 /\ c <> x04) junk ->
  wire_address atyp addr ->
  exists ctx',
    processInbound
      (new_session host port
         {| pending := greeting methods ++ [x05; x01; rsv] ++ junk
                       ++ atyp :: addr ++ p1 :: p2 :: rest;
            closing := fate |}
         (new_Writer false))
    = (ctx', None) /\
    RequestData ctx' = [rsv] ++ junk ++ atyp :: addr /\
    Connection.Port (Remote ctx') = 256 * int_of_byte p1 + int_of_byte p2 /\
    pending (Connection.Reader (Client ctx')) = rest.
Proof.
  intros Hm Hjunk Haddr.
  set (input := greeting methods ++ [x05; x01; rsv] ++ junk
                ++ atyp :: addr ++ p1 :: p2 :: rest).
  set (c0 := new_session host port {| pending := input; closing := fate |}
               (new_Writer false)).
  destruct (inbound_loop_unknown_types c0 methods rsv junk atyp addr p1 p2 rest
              Hm Hjunk Haddr) as [h Hloop].
  eexists. split.
  - unfold processInbound.
    change (pending (Connection.Reader (Client c0))) with input.
    change c0 with (parsed c0 input (new_Writer false) [] [] 0) at 1.
    exact Hloop.
  - repeat split.
Qed.

Lemma processInbound_unknown_address_types_witness :
  exists ctx',
    processInbound
      (new_session (str "192.0.2.1") 50000
         {| pending := greeting [x00] ++ [x05; x01; x00] ++ [x02; x09]
                       ++ x01 :: [xc6; x33; x64; x09] ++ x01 :: xbb :: [];
            closing := io_EOF |}
         (new_Writer false))
    = (ctx', None) /\
    RequestData ctx' = [x00; x02; x09; x01; xc6; x33; x64; x09].
Proof.
  destruct (processInbound_unknown_address_types (str "192.0.2.1") 50000 io_EOF
              [x00] x00 [x02; x09] x01 [xc6; x33; x64; x09] x01 xbb [])
    as (ctx' & Hrun & Hrd & _).
  - unfold len. simpl. lia.
  - repeat constructor; discriminate.
  - left. split; reflexivity.
  - exists ctx'. split; [exact Hrun|exact Hrd].
Defined.

(** X16. A command other than CONNECT (BIND, UDP ASSOCIATE, anything) ends
    the parse with an error after the method reply has been sent: the
    client gets [05 00] and no SOCKS5 error reply, and no request data is
    kept. *)
Theorem processInbound_other_command (host : gostring) (port : Z) (fate : error)
    (methods : list byte) (cmd : byte) (rest : list byte) :
  1 <= len methods <= 255 -> cmd <> x01 ->
  exists ctx',
    processInbound
      (new_session host port
         {| pending := greeting methods ++ [x05; cmd] ++ rest; closing := fate |}
         (new_Writer false))
    = (ctx', Some (invalid_data 5 host)) /\
    wire (Connection.Writer (Client ctx')) = [x05; x00] /\
    unflushed (Connection.Writer (Client ctx')) = [] /\
    RequestData ctx' = [] /\
    pending (Connection.Reader (Client ctx')) = rest.
Proof.
  intros Hm Hcmd.
  set (input := greeting methods ++ [x05; cmd] ++ rest).
  set (c0 := new_session host port {| pending := input; closing := fate |}
               (new_Writer false)).
  eexists. split.
  - unfold processInbound.
    change (pending (Connection.Reader (Client c0))) with input.
    change c0 with (parsed c0 input (new_Writer false) [] [] 0) at 1.
    apply inbound_loop_other_command; assumption.
  - repeat split.
Qed.

Lemma processInbound_other_command_witness :
  exists ctx',
    processInbound
      (new_session (str "192.0.2.1") 50000
         {| pending := greeting [x00] ++ [x05; x03] ++ [x00; x01];
            closing := io_EOF |}
         (new_Writer false))
    = (ctx', Some (invalid_data 5 (str "192.0.2.1"))) /\
    wire (Connection.Writer (Client ctx')) = [x05; x00].
Proof.
  destruct (processInbound_other_command (str "192.0.2.1") 50000 io_EOF [x00]
              x03 [x00; x01])
    as (ctx' & Hrun & Hwire & _).
  - unfold len. simpl. lia.
  - discriminate.
  - exists ctx'. split; [exact Hrun|exact Hwire].
Defined.

(** The invariant behind it: up to state 2 the writer is untouched, from
    state 4 on it has accepted nothing or the method reply. *)
Lemma inbound_loop_writes (b : bool) (input : list byte) :
  forall st k ctx err,
    0 <= st ->
    (st <= 2 /\ Connection.Writer (Client ctx) = new_Writer b) \/
    (4 <= st /\ (accepted (Connection.Writer (Client ctx)) = [] \/
                 accepted (Connection.Writer (Client ctx)) = [x05; x00])) ->
    accepted (Connection.Writer (Client (fst (inbound_loop input st k ctx err)))) = [] \/
    accepted (Connection.Writer (Client (fst (inbound_loop input st k ctx err))))
    = [x05; x00].
Proof.
  assert (Hend : forall st ctx,
            (st <= 2 /\ Connection.Writer (Client ctx) = new_Writer b) \/
            (4 <= st /\ (accepted (Connection.Writer (Client ctx)) = [] \/
                         accepted (Connection.Writer (Client ctx)) = [x05; x00])) ->
            accepted (Connection.Writer (Client ctx)) = [] \/
            accepted (Connection.Writer (Client ctx)) = [x05; x00]).
  { intros st ctx [[_ ->] | [_ Hacc]]; [left; reflexivity|exact Hacc]. }
  induction input as [|d input IH]; intros st k ctx err Hst Hinv.
  - simpl. destruct (st <? 13); simpl; eapply Hend; exact Hinv.
  - cbn [inbound_loop]. destruct (Z.ltb_spec st 13) as [Hlt|Hge];
      [|simpl; eapply Hend; exact Hinv].
    destruct ctx as [[ch cp cr cw cc] remote rd px]. cbn in Hinv.
    assert (Hcases : st = 0 \/ st = 1 \/ st = 2 \/ st = 3 \/ st = 4 \/ st = 5 \/ st = 6
                     \/ st = 7 \/ st = 8 \/ st = 9 \/ st = 10 \/ st = 11 \/ st = 12)
      by lia.
    destruct Hinv as [[Hle ->] | [Hge Hacc]].
    + destruct Hcases as [-> | [-> | [-> | Hrest]]]; [| | |lia];
        cbv beta iota zeta delta [inbound_switch].
      * destruct (Byte.eqb d x05); apply IH; try lia;
          [left|right]; (split; [lia|]); cbn; auto.
      * destruct (int_of_byte d >? 0); apply IH; try lia;
          [left|right]; (split; [lia|]); cbn; auto.
      * destruct (wrap_int (k - 1) >? 0); [apply IH; [lia|left; split; [lia|reflexivity]]|].
        destruct b; cbn; apply IH; try lia; right; (split; [lia|]); cbn; auto.
    + destruct Hcases as [-> | [-> | [-> | [-> | Hrest]]]]; try lia.
      cbv beta iota zeta delta [inbound_switch].
      repeat destruct Hrest as [-> | Hrest]; try subst st;
        repeat match goal with
               | |- context [if ?c then _ else _] => destruct c
               end;
        cbn; apply IH; try lia; right; (split; [lia|]); cbn; exact Hacc.
Qed.

(** X17. Whatever the client sends and however its stream ends, the parser
    writes nothing to it but the method reply: what the client's writer
    has accepted when [processInbound] returns is empty or [05 00]. *)
Theorem processInbound_writes_only_method_reply (host : gostring) (port : Z)
    (r : Reader) (b : bool) :
  let ctx' := fst (processInbound (new_session host port r (new_Writer b))) in
  accepted (Connection.Writer (Client ctx')) = [] \/
  accepted (Connection.Writer (Client ctx')) = [x05; x00].
Proof.
  cbv zeta. unfold processInbound.
  apply (inbound_loop_writes b); [lia|]. left. split; [lia|reflexivity].
Qed.

(** ** The outbound engine, further *)

(** A writer without error takes every chunk; with a transport that
    accepts writes, everything is flushed to the wire in order. *)
Lemma Writer_send_healthy (chunks : list (list byte)) :
  forall u wr,
    Writer_send {| unflushed := u; wire := wr; broken := false; werr := false |} chunks
    = ({| unflushed := []; wire := wr ++ u ++ concat chunks;
          broken := false; werr := false |}, None).
Proof.
  induction chunks as [|p chunks IH]; intros u wr.
  - cbn [Writer_send concat]. unfold Writer_Flush. cbn [werr unflushed broken wire].
    rewrite app_nil_r.
    destruct (Z.eqb_spec (len u) 0) as [Hz|_]; [|reflexivity].
    apply len_zero_nil in Hz. subst u. rewrite app_nil_r. reflexivity.
  - cbn [Writer_send concat]. unfold Writer_Write. cbn [werr unflushed broken wire].
    rewrite IH, <- app_assoc. reflexivity.
Qed.

(** What a writer without error has accepted after unchecked writes and
    a flush: what it had, then the chunks. *)
Lemma Writer_send_unchecked_accepted (chunks : list (list byte)) (w : Writer) :
  werr w = false ->
  accepted (Writer_send_unchecked w chunks) = accepted w ++ concat chunks.
Proof.
  intros Hw. unfold Writer_send_unchecked.
  assert (Hfold : forall cs w0, werr w0 = false ->
            werr (fold_left (fun w1 p => fst (Writer_Write w1 p)) cs w0) = false /\
            accepted (fold_left (fun w1 p => fst (Writer_Write w1 p)) cs w0)
            = accepted w0 ++ concat cs).
  { induction cs as [|p cs IH]; intros w0 Hw0; simpl.
    - rewrite app_nil_r. split; [exact Hw0|reflexivity].
    - destruct w0 as [u wr br we]. simpl in Hw0. subst we.
      unfold Writer_Write at 2 4. simpl.
      destruct (IH {| unflushed := u ++ p; wire := wr; broken := br; werr := false |}
                  eq_refl) as [H1 H2].
      split; [exact H1|]. rewrite H2. unfold accepted. simpl.
      rewrite <- !app_assoc. reflexivity. }
  destruct (Hfold chunks w Hw) as [Hwerr Hacc].
  destruct (fold_left (fun w1 p => fst (Writer_Write w1 p)) chunks w) as [u wr br we].
  simpl in Hwerr. subst we. rewrite <- Hacc.
  unfold Writer_Flush, accepted. simpl.
  destruct (len u =? 0); [reflexivity|].
  destruct br; simpl; [reflexivity|]. rewrite app_nil_r. reflexivity.
Qed.

Lemma reply_general_error_accepted (ctx : ClientCtx) :
  werr (Connection.Writer (Client ctx)) = false ->
  accepted (Connection.Writer (Client (reply_general_error ctx)))
  = accepted (Connection.Writer (Client ctx))
    ++ [x05; x01] ++ RequestData ctx ++ [x00; x00].
Proof.
  intros Hw. unfold reply_general_error. cbn [Client with_Client Connection.Writer
    Connection.with_Writer].
  rewrite Writer_send_unchecked_accepted by exact Hw.
  cbn [concat]. rewrite app_nil_r. reflexivity.
Qed.

(** The outbound state machine leaves the client's connection and the
    request data alone. *)
Lemma outbound_switch_frame (authType : byte) (v v' : outbound_vars) (d : byte)
    (ctx ctx' : ClientCtx) (err' : option error) :
  0 <= state v < 15 ->
  outbound_switch authType v d ctx = (v', ctx', err') ->
  Client ctx' = Client ctx /\ RequestData ctx' = RequestData ctx /\ 0 <= state v'.
Proof.
  intros Hst Hsw.
  assert (Hcases : state v = 0 \/ state v = 1 \/ state v = 2 \/ state v = 3
                   \/ state v = 4 \/ state v = 5 \/ state v = 6 \/ state v = 7
                   \/ state v = 8 \/ state v = 9 \/ state v = 10 \/ state v = 11
                   \/ state v = 12 \/ state v = 13 \/ state v = 14) by lia.
  destruct v as [st k resp]. cbn [state] in *.
  unfold outbound_switch, outbound_case2, outbound_case5 in Hsw. cbn [state store response] in Hsw.
  repeat destruct Hcases as [-> | Hcases]; try subst st;
    repeat match type of Hsw with
           | context [Writer_send ?w ?c] => destruct (Writer_send w c) as [? [?|]]
           | context [if ?c then _ else _] => destruct c
           end;
    injection Hsw as <- <- <-; cbn; repeat split; lia.
Qed.

Lemma outbound_loop_frame (authType : byte) (input : list byte) :
  forall v ctx err v' ctx' err',
    0 <= state v ->
    outbound_loop authType input v ctx err = (v', ctx', err') ->
    Client ctx' = Client ctx /\ RequestData ctx' = RequestData ctx.
Proof.
  induction input as [|d input IH]; intros v ctx err v' ctx' err' Hst; simpl.
  - destruct (state v <? 15); intros [= <- <- <-]; split; reflexivity.
  - destruct (Z.ltb_spec (state v) 15) as [Hlt|Hge];
      [|intros [= <- <- <-]; split; reflexivity].
    destruct (outbound_switch authType v d _) as [[v1 ctx1] err1] eqn:Hsw.
    intros Hloop.
    apply outbound_switch_frame in Hsw; [|lia]. destruct Hsw as (Hc & Hr & Hst1).
    destruct (IH _ _ _ _ _ _ Hst1 Hloop) as [Hc' Hr'].
    split; [rewrite Hc', Hc|rewrite Hr', Hr]; reflexivity.
Qed.

(** X18. Every failing return of the relayed path answers the client with
    the same general failure: [05 01], the request data, [00 00]. The
    reply does not depend on what went wrong (dial, greeting, any byte of
    the upstream, its end of stream, and, without a logger, credentials
    that are too long), so the upstream's own reason never reaches the
    client. With a logger, credentials that are too long do not give a
    return at all: [logError] is called with a nil error and panics. *)
Theorem processOutbound_relayed_failure_reply (Logger : bool) (ctx : ClientCtx)
    (proxy : ProxyInfo.t) (dial : DialOutcome) :
  werr (Connection.Writer (Client ctx)) = false ->
  (forall ctx' e,
     processOutbound_relayed Logger ctx proxy dial = Ok (ctx', Some e) ->
     accepted (Connection.Writer (Client ctx'))
     = accepted (Connection.Writer (Client ctx))
       ++ [x05; x01] ++ RequestData ctx ++ [x00; x00] /\
     RequestData ctx' = RequestData ctx) /\
  (255 < len (ProxyInfo.Username proxy) \/ 255 < len (ProxyInfo.Password proxy) ->
   processOutbound_relayed Logger ctx proxy dial
   = if Logger then Panic NilDereference
     else Ok (reply_general_error (with_Proxy ctx proxy),
              Some (credentials_too_long (ProxyInfo.Host proxy)))).
Proof.
  intros Hw. split.
  - intros ctx' e. unfold processOutbound_relayed.
    destruct ((len (ProxyInfo.Username proxy) >? 255)
              || (len (ProxyInfo.Password proxy) >? 255)).
    { destruct Logger; simpl; [discriminate|].
      intros [= <- _]. rewrite reply_general_error_accepted by exact Hw.
      split; reflexivity. }
    destruct dial as [e0|r w].
    { intros [= <- _]. rewrite reply_general_error_accepted by exact Hw.
      split; reflexivity. }
    destruct (Writer_send _ _) as [w1 [e1|]].
    { intros [= <- _]. rewrite reply_general_error_accepted by exact Hw.
      split; reflexivity. }
    destruct (outbound_loop _ _ _ _ _) as [[v1 ctx1] err1] eqn:Hloop.
    apply outbound_loop_frame in Hloop; [|cbn; lia]. destruct Hloop as [Hc Hr].
    cbn in Hc, Hr.
    destruct err1 as [e1|]; [|discriminate].
    intros [= <- _]. split; [|exact Hr].
    rewrite reply_general_error_accepted by (rewrite Hc; exact Hw).
    rewrite Hc, Hr. reflexivity.
  - intros Hlong. unfold processOutbound_relayed.
    assert (Hcond : (len (ProxyInfo.Username proxy) >? 255)
                    || (len (ProxyInfo.Password proxy) >? 255) = true).
    { apply orb_true_iff. destruct Hlong as [Hu|Hp]; [left|right];
        apply Z.gtb_lt; lia. }
    rewrite Hcond. destruct Logger; reflexivity.
Qed.

Lemma processOutbound_relayed_failure_reply_witness :
  let session :=
    fst (processInbound
           (new_session (str "192.0.2.1") 50000
              {| pending := greeting [x00]
                            ++ connect_request x00 x01 [xc6; x33; x64; x09] x01 xbb;
                 closing := io_EOF |} (new_Writer false))) in
  let proxy := {| ProxyInfo.Host := str "u.example"; ProxyInfo.Port := 1080;
                  ProxyInfo.UseTLS := false;
                  ProxyInfo.Username := str "a"; ProxyInfo.Password := str "b" |} in
  let upstream := Dialed {| pending := [x05; x02; x01; x01]; closing := io_EOF |}
                    (new_Writer false) in
  exists ctx',
    processOutbound_relayed true session proxy upstream
    = Ok (ctx', Some (authentication_failed (str "u.example") x01)) /\
    accepted (Connection.Writer (Client ctx'))
    = [x05; x00] ++ [x05; x01] ++ [x00; x01; xc6; x33; x64; x09] ++ [x00; x00].
Proof.
  intros session proxy upstream.
  assert (Hrun : exists ctx',
             processOutbound_relayed true session proxy upstream
             = Ok (ctx', Some (authentication_failed (str "u.example") x01))).
  { eexists. vm_compute. reflexivity. }
  destruct Hrun as [ctx' Hrun]. exists ctx'. split; [exact Hrun|].
  exact (proj1 (proj1 (processOutbound_relayed_failure_reply true session proxy
                         upstream eq_refl) ctx' _ Hrun)).
Defined.

Section OutboundRelay.
Variable c0 : ClientCtx.

Lemma outbound_loop_read (authType d : byte) (input : list byte) (v : outbound_vars)
    (w : Writer) (err : option error) :
  state v < 15 ->
  outbound_loop authType (d :: input) v (relaying c0 (d :: input) w) err
  = let '(v', ctx', err') := outbound_switch authType v d (relaying c0 input w) in
    outbound_loop authType input v' ctx' err'.
Proof.
  intros Hst. simpl. destruct (Z.ltb_spec (state v) 15); [reflexivity|lia].
Qed.

Lemma outbound_loop_done (authType : byte) (input : list byte) (v : outbound_vars)
    (ctx : ClientCtx) (err : option error) :
  15 <= state v -> outbound_loop authType input v ctx err = (v, ctx, err).
Proof.
  intros Hst. destruct input; simpl; destruct (Z.ltb_spec (state v) 15);
    (reflexivity || lia).
Qed.

Lemma outbound_case2_healthy (input u wr : list byte) :
  outbound_case2
    (relaying c0 input {| unflushed := u; wire := wr; broken := false; werr := false |})
  = (3,
     relaying c0 input
       {| unflushed := [];
          wire := wr ++ u
                  ++ concat [[x01; byte_of_int (len (ProxyInfo.Username (Proxy c0)))];
                             ProxyInfo.Username (Proxy c0);
                             [byte_of_int (len (ProxyInfo.Password (Proxy c0)))];
                             ProxyInfo.Password (Proxy c0)];
          broken := false; werr := false |},
     None).
Proof.
  unfold outbound_case2.
  cbn [relaying with_Remote Remote Proxy Connection.Writer Connection.with_Writer].
  rewrite Writer_send_healthy. reflexivity.
Qed.

Lemma outbound_case5_healthy (input u wr : list byte) :
  outbound_case5
    (relaying c0 input {| unflushed := u; wire := wr; broken := false; werr := false |})
  = (6,
     relaying c0 input
       {| unflushed := [];
          wire := wr ++ u
                  ++ concat [[x05; x01]; RequestData c0;
                             port_bytes (Connection.Port (Remote c0))];
          broken := false; werr := false |},
     None).
Proof.
  unfold outbound_case5.
  cbn [relaying with_Remote Remote RequestData Connection.Writer Connection.with_Writer
       Connection.Port Connection.with_Reader].
  rewrite Writer_send_healthy. reflexivity.
Qed.

(** States 10, 12 and 13 collect the address of the upstream's reply. *)
Lemma outbound_address_phase (authType : byte) (s : Z) (addr : list byte) :
  s = 10 \/ s = 12 \/ s = 13 -> addr <> [] -> len addr <= 255 ->
  forall rest w resp err,
    outbound_loop authType (addr ++ rest)
      {| state := s; store := len addr; response := resp |}
      (relaying c0 (addr ++ rest) w) err
    = outbound_loop authType rest
        {| state := 14; store := 2; response := resp ++ addr |}
        (relaying c0 rest w) None.
Proof.
  intros Hs. induction addr as [|a t IH]; [congruence|].
  intros _ Hlen rest w resp err.
  change ((a :: t) ++ rest) with (a :: (t ++ rest)).
  rewrite outbound_loop_read by (cbn; lia).
  assert (Hk : wrap_int (len (a :: t) - 1) = len t).
  { rewrite wrap_int_small; unfold len in *; simpl length in *; lia. }
  assert (Hsw : outbound_switch authType
                  {| state := s; store := len (a :: t); response := resp |} a
                  (relaying c0 (t ++ rest) w)
                = (if len t =? 0
                   then {| state := 14; store := 2; response := resp ++ [a] |}
                   else {| state := s; store := len t; response := resp ++ [a] |},
                   relaying c0 (t ++ rest) w, None)).
  { destruct Hs as [-> | [-> | ->]];
      cbv beta iota zeta delta [outbound_switch state store response];
      rewrite Hk; destruct (len t =? 0); reflexivity. }
  rewrite Hsw. destruct t as [|b t'].
  - cbn [app]. change (len (@nil byte) =? 0) with true. cbv iota. reflexivity.
  - assert (Hnz : (len (b :: t') =? 0) = false).
    { apply Z.eqb_neq. unfold len. simpl length. lia. }
    rewrite Hnz. cbv iota.
    rewrite IH; [|discriminate|unfold len in *; simpl length in *; lia].
    rewrite <- app_assoc. reflexivity.
Qed.

Ltac relay_step :=
  rewrite outbound_loop_read by (cbn; lia);
  cbv beta iota zeta delta [outbound_switch state store response];
  repeat match goal with
         | |- context [Byte.eqb ?a ?b] =>
             let v := eval vm_compute in (Byte.eqb a b) in
             progress change (Byte.eqb a b) with v
         | |- context [wrap_int (Z.pos ?q - 1)] =>
             let v := eval vm_compute in (wrap_int (Z.pos q - 1)) in
             change (wrap_int (Z.pos q - 1)) with v
         | |- context [Z.pos ?q =? 0] => change (Z.pos q =? 0) with false
         | |- context [0 =? 0] => change (0 =? 0) with true
         end;
  cbv iota;
  rewrite ?outbound_case2_healthy, ?outbound_case5_healthy;
  cbn [app].

(** The whole exchange with an upstream that accepts the user/pass
    method, the credentials and the request. *)
Lemma outbound_loop_userpass (rsv atyp : byte) (addr : list byte) (q1 q2 : byte)
    (rest wr : list byte) :
  wire_address atyp addr ->
  outbound_loop x02
    ([x05; x02; x01; x00; x05; x00; rsv; atyp] ++ addr ++ [q1; q2] ++ rest)
    {| state := 0; store := 0; response := [] |}
    (relaying c0
       ([x05; x02; x01; x00; x05; x00; rsv; atyp] ++ addr ++ [q1; q2] ++ rest)
       {| unflushed := []; wire := wr; broken := false; werr := false |})
    None
  = ({| state := 15; store := 0; response := [rsv; atyp] ++ addr ++ [q1; q2] |},
     relaying c0 rest
       {| unflushed := [];
          wire := wr
                  ++ [x01; byte_of_int (len (ProxyInfo.Username (Proxy c0)))]
                  ++ ProxyInfo.Username (Proxy c0)
                  ++ [byte_of_int (len (ProxyInfo.Password (Proxy c0)))]
                  ++ ProxyInfo.Password (Proxy c0)
                  ++ [x05; x01] ++ RequestData c0
                  ++ port_bytes (Connection.Port (Remote c0));
          broken := false; werr := false |},
     None).
Proof.
  intros Haddr. cbn [app].
  do 7 relay_step.
  set (w2 := {| unflushed := []; wire := _; broken := false; werr := false |}).
  assert (Hport : forall resp,
            outbound_loop x02 (q1 :: q2 :: rest)
              {| state := 14; store := 2; response := resp |}
              (relaying c0 (q1 :: q2 :: rest) w2) None
            = ({| state := 15; store := 0; response := resp ++ [q1; q2] |},
               relaying c0 rest w2, None)).
  { intros resp. do 2 relay_step. rewrite outbound_loop_done by (cbn; lia).
    rewrite <- app_assoc. reflexivity. }
  assert (Hw2 : w2 = {| unflushed := [];
                        wire := wr
                          ++ [x01; byte_of_int (len (ProxyInfo.Username (Proxy c0)))]
                          ++ ProxyInfo.Username (Proxy c0)
                          ++ [byte_of_int (len (ProxyInfo.Password (Proxy c0)))]
                          ++ ProxyInfo.Password (Proxy c0)
                          ++ [x05; x01] ++ RequestData c0
                          ++ port_bytes (Connection.Port (Remote c0));
                        broken := false; werr := false |}).
  { unfold w2. f_equal. cbn [concat app]. rewrite ?app_nil_r, <- ?app_assoc.
    cbn [app]. rewrite <- ?app_assoc. reflexivity. }
  destruct Haddr as [[-> Hlen] | [[-> Hlen] | (-> & l & name & -> & Hl & Hname)]].
  - relay_step. rewrite <- Hlen.
    rewrite (outbound_address_phase x02 10 addr);
      [|left; reflexivity|intros ->; unfold len in Hlen; simpl in Hlen; lia|lia].
    rewrite Hport, Hw2, <- !app_assoc. reflexivity.
  - relay_step. rewrite <- Hlen.
    rewrite (outbound_address_phase x02 13 addr);
      [|right; right; reflexivity|intros ->; unfold len in Hlen; simpl in Hlen; lia|lia].
    rewrite Hport, Hw2, <- !app_assoc. reflexivity.
  - pose proof (int_of_byte_range l) as Hrange.
    relay_step. relay_step. rewrite Hl.
    rewrite (outbound_address_phase x02 12 name);
      [|right; left; reflexivity|intros ->; unfold len in Hname; simpl in Hname; lia|lia].
    rewrite Hport, Hw2, <- !app_assoc. reflexivity.
Qed.

End OutboundRelay.

(** X19. With credentials, a relay that goes well is a faithful one. The
    upstream receives the greeting offering user/pass, the RFC 1929
    message with both lengths, and the CONNECT request made of [05 01],
    the request data and the destination port; the client receives
    [05 00] followed by the upstream's reply from its reserved byte to its
    port, unchanged; the bytes that follow the reply stay in the reader
    for the splice. *)
Theorem processOutbound_relayed_userpass (Logger : bool) (ctx : ClientCtx)
    (proxy : ProxyInfo.t) (fate : error) (rsv atyp : byte) (addr : list byte) (q1 q2 : byte)
    (rest : list byte) :
  ProxyInfo.Username proxy <> [] \/ ProxyInfo.Password proxy <> [] ->
  len (ProxyInfo.Username proxy) <= 255 ->
  len (ProxyInfo.Password proxy) <= 255 ->
  wire_address atyp addr ->
  werr (Connection.Writer (Client ctx)) = false ->
  exists ctx',
    processOutbound_relayed Logger ctx proxy
      (Dialed {| pending := [x05; x02; x01; x00; x05; x00; rsv; atyp]
                            ++ addr ++ [q1; q2] ++ rest;
                 closing := fate |}
         (new_Writer false))
    = Ok (ctx', None) /\
    wire (Connection.Writer (Remote ctx'))
    = [x05; x01; x02]
      ++ [x01; byte_of_int (len (ProxyInfo.Username proxy))]
      ++ ProxyInfo.Username proxy
      ++ [byte_of_int (len (ProxyInfo.Password proxy))]
      ++ ProxyInfo.Password proxy
      ++ [x05; x01] ++ RequestData ctx ++ port_bytes (Connection.Port (Remote ctx)) /\
    unflushed (Connection.Writer (Remote ctx')) = [] /\
    accepted (Connection.Writer (Client ctx'))
    = accepted (Connection.Writer (Client ctx))
      ++ [x05; x00] ++ [rsv; atyp] ++ addr ++ [q1; q2] /\
    pending (Connection.Reader (Remote ctx')) = rest /\
    Proxy ctx' = proxy.
Proof.
  intros Hcred HU HP Haddr Hw.
  apply select_authType_userpass in Hcred.
  unfold processOutbound_relayed.
  assert (Hlong : (len (ProxyInfo.Username proxy) >? 255)
                  || (len (ProxyInfo.Password proxy) >? 255) = false).
  { apply orb_false_iff. split; rewrite Z.gtb_ltb; apply Z.ltb_ge; lia. }
  rewrite Hlong, Hcred.
  set (input := [x05; x02; x01; x00; x05; x00; rsv; atyp] ++ addr ++ [q1; q2] ++ rest).
  set (c0 := with_Remote (with_Proxy ctx proxy)
               (Connection.with_Writer
                  (Connection.with_Reader (Remote (with_Proxy ctx proxy))
                     {| pending := input; closing := fate |})
                  (new_Writer false))).
  change (Writer_send (Connection.Writer (Remote c0)) [[x05; x01; x02]])
    with (Writer_send {| unflushed := []; wire := []; broken := false; werr := false |}
            [[x05; x01; x02]]).
  rewrite Writer_send_healthy. cbn [concat app].
  change (pending (Connection.Reader (Remote (with_Remote_Writer c0 ?w)))) with input.
  change (with_Remote_Writer c0
            {| unflushed := []; wire := [x05; x01; x02]; broken := false; werr := false |})
    with (relaying c0 input
            {| unflushed := []; wire := [x05; x01; x02]; broken := false; werr := false |}).
  unfold input. rewrite (outbound_loop_userpass c0 rsv atyp addr q1 q2 rest _ Haddr).
  eexists. split; [reflexivity|].
  cbn [Remote Client relaying with_Remote with_Client Connection.Writer
       Connection.with_Writer Connection.with_Reader Connection.Reader wire unflushed
       pending Proxy response].
  rewrite Writer_send_unchecked_accepted by exact Hw.
  cbn [concat]. rewrite app_nil_r.
  repeat split.
Qed.

Lemma processOutbound_relayed_userpass_witness :
  let session :=
    fst (processInbound
           (new_session (str "192.0.2.1") 50000
              {| pending := greeting [x00]
                            ++ connect_request x00 x01 [xc6; x33; x64; x09] x01 xbb;
                 closing := io_EOF |} (new_Writer false))) in
  let proxy := {| ProxyInfo.Host := str "u.example"; ProxyInfo.Port := 1080;
                  ProxyInfo.UseTLS := false;
                  ProxyInfo.Username := str "a"; ProxyInfo.Password := str "b" |} in
  exists ctx',
    processOutbound_relayed true session proxy
      (Dialed {| pending := [x05; x02; x01; x00; x05; x00; x00; x01]
                            ++ [xc6; x33; x64; x09] ++ [x01; xbb] ++ [];
                 closing := io_EOF |}
         (new_Writer false))
    = Ok (ctx', None) /\
    accepted (Connection.Writer (Client ctx'))
    = [x05; x00] ++ [x05; x00] ++ [x00; x01] ++ [xc6; x33; x64; x09] ++ [x01; xbb].
Proof.
  cbv zeta.
  destruct (processOutbound_relayed_userpass true
              (fst (processInbound
                      (new_session (str "192.0.2.1") 50000
                         {| pending := greeting [x00]
                                       ++ connect_request x00 x01 [xc6; x33; x64; x09]
                                            x01 xbb;
                            closing := io_EOF |} (new_Writer false))))
              {| ProxyInfo.Host := str "u.example"; ProxyInfo.Port := 1080;
                 ProxyInfo.UseTLS := false;
                 ProxyInfo.Username := str "a"; ProxyInfo.Password := str "b" |}
              io_EOF x00 x01 [xc6; x33; x64; x09] x01 xbb [])
    as (ctx' & Hrun & _ & _ & Hacc & _).
  - left. discriminate.
  - unfold len. simpl. lia.
  - unfold len. simpl. lia.
  - left. split; reflexivity.
  - reflexivity.
  - exists ctx'. split; [exact Hrun|exact Hacc].
Defined.

(** ** From the request to the reply *)

Lemma Writer_send_unchecked_healthy (chunks : list (list byte)) (u wr : list byte) :
  Writer_send_unchecked
    {| unflushed := u; wire := wr; broken := false; werr := false |} chunks
  = {| unflushed := []; wire := wr ++ u ++ concat chunks;
       broken := false; werr := false |}.
Proof.
  unfold Writer_send_unchecked. revert u.
  induction chunks as [|p chunks IH]; intros u.
  - cbn [fold_left concat]. unfold Writer_Flush. cbn [werr unflushed broken wire fst].
    rewrite app_nil_r.
    destruct (Z.eqb_spec (len u) 0) as [Hz|_]; [|reflexivity].
    apply len_zero_nil in Hz. subst u. cbn [fst]. rewrite app_nil_r. reflexivity.
  - cbn [fold_left concat]. unfold Writer_Write at 2.
    cbn [werr unflushed broken wire fst].
    rewrite IH, <- app_assoc. reflexivity.
Qed.

(** The run of the parser on a request for a domain name. *)
Lemma processInbound_domain_run (host : gostring) (port : Z) (fate : error)
    (methods : list byte) (rsv l : byte) (name : list byte) (p1 p2 : byte)
    (rest : list byte) :
  1 <= len methods <= 255 -> 1 <= len name -> int_of_byte l = len name ->
  let s0 :=
    new_session host port
      {| pending := greeting methods
                    ++ connect_request rsv x03 (l :: name) p1 p2 ++ rest;
         closing := fate |}
      (new_Writer false) in
  processInbound s0
  = (parsed s0 rest
       {| unflushed := []; wire := [x05; x00]; broken := false; werr := false |}
       ([rsv; x03; l] ++ name) name (256 * int_of_byte p1 + int_of_byte p2), None).
Proof.
  intros Hm Hname Hl s0.
  set (input := greeting methods ++ connect_request rsv x03 (l :: name) p1 p2 ++ rest).
  unfold processInbound.
  change (pending (Connection.Reader (Client s0))) with input.
  change s0 with (parsed s0 input (new_Writer false) [] [] 0) at 1.
  apply inbound_loop_domain; assumption.
Qed.

Section Client.
Context `{Unicode} `{Net}.

(** X20. A CONNECT for a domain name whose lowercase form ends with the name
    of a blacklist entry is dropped after the parse: nothing is dialed,
    whatever the pool and the network, and the client has received the
    method reply [05 00] and nothing else. *)
Theorem processClient_blacklisted_domain (Logger : bool) (DomainFilter : Filter)
    (pool : list ProxyInfo.t) (ReportIP : list byte) (host : gostring) (port : Z)
    (fate : error) (methods : list byte) (rsv l : byte) (name : list byte)
    (p1 p2 : byte) (rest : list byte) (e : DomainEntry) :
  1 <= len methods <= 255 -> 1 <= len name -> int_of_byte l = len name ->
  e ∈ Domains DomainFilter ->
  Name e `suffix_of` strings.ToLower name ->
  exists ctx',
    processClient_handshake Logger DomainFilter pool ReportIP
      (new_session host port
         {| pending := greeting methods
                       ++ connect_request rsv x03 (l :: name) p1 p2 ++ rest;
            closing := fate |}
         (new_Writer false))
    = Ok (Blacklisted ctx') /\
    wire (Connection.Writer (Client ctx')) = [x05; x00] /\
    unflushed (Connection.Writer (Client ctx')) = [] /\
    Connection.Host (Remote ctx') = name.
Proof.
  intros Hm Hname Hl He Hsuffix. unfold processClient_handshake.
  rewrite processInbound_domain_run by assumption.
  cbn [parsed Remote Connection.Host Connection.with_Host Connection.with_Port].
  assert (Hblocked : blocked (Filter_Matches DomainFilter name) = true).
  { unfold Filter_Matches. apply Matches_range_blocked.
    exists e. split; [exact He|]. apply DomainEntry_Matches_suffix. exact Hsuffix. }
  rewrite Hblocked. eexists. split; [reflexivity|]. repeat split.
Qed.

(** X21. With an empty pool, a CONNECT for a domain name that the blacklist
    does not match dials [name:port] (the port in decimal) and, when the
    dial succeeds and the advertised address has four bytes, answers
    [05 00 00 01], the four bytes and the local port of the new
    connection in big-endian; the session then owns that connection. *)
Theorem processClient_direct_domain (Logger : bool) (DomainFilter : Filter)
    (ReportIP : list byte)
    (host : gostring) (port : Z) (fate : error) (methods : list byte)
    (rsv l : byte) (name : list byte) (p1 p2 : byte) (rest : list byte)
    (r : Reader) (w : Writer) (localPort : Z) :
  1 <= len methods <= 255 -> 1 <= len name -> int_of_byte l = len name ->
  blocked (Filter_Matches DomainFilter name) = false ->
  net_Dial (JoinHostPort name (strconv.Itoa (256 * int_of_byte p1 + int_of_byte p2)))
  = Connected r w localPort ->
  len ReportIP = 4 ->
  exists ctx',
    processClient_handshake Logger DomainFilter [] ReportIP
      (new_session host port
         {| pending := greeting methods
                       ++ connect_request rsv x03 (l :: name) p1 p2 ++ rest;
            closing := fate |}
         (new_Writer false))
    = Ok (Opened ctx') /\
    wire (Connection.Writer (Client ctx'))
    = [x05; x00] ++ [x05; x00; x00; x01] ++ ReportIP
      ++ port_bytes (wrap_uint16 localPort) /\
    unflushed (Connection.Writer (Client ctx')) = [] /\
    Connection.Reader (Remote ctx') = r /\
    Connection.Writer (Remote ctx') = w /\
    pending (Connection.Reader (Client ctx')) = rest.
Proof.
  intros Hm Hname Hl Hfree Hdial Hip. unfold processClient_handshake.
  rewrite processInbound_domain_run by assumption.
  cbn [parsed Remote Connection.Host Connection.with_Host Connection.with_Port].
  rewrite Hfree. unfold processOutbound. change (len (@nil ProxyInfo.t) =? 0) with true.
  cbv iota. unfold processOutbound_direct.
  cbn [parsed Remote Connection.Host Connection.Port Connection.with_Host
       Connection.with_Port].
  rewrite Hdial. unfold IP_To4. rewrite Hip. change (4 =? 4) with true. cbv iota.
  cbn [Client parsed with_Remote Connection.Writer Connection.with_Writer
       Connection.with_Reader app].
  rewrite Writer_send_unchecked_healthy.
  eexists. split; [reflexivity|].
  cbn [Client Remote with_Client Connection.Writer Connection.Reader
       Connection.with_Writer Connection.with_Reader wire unflushed pending concat app].
  rewrite app_nil_r. repeat split.
Qed.

(** X22. With an empty pool, when the dial for a domain name that the
    blacklist does not match is refused, the client gets the general failure with
    the address it asked for, port zeroed: [05 01], reserved byte, type
    3, length, name, [00 00]. *)
Theorem processClient_direct_refused (Logger : bool) (DomainFilter : Filter)
    (ReportIP : list byte)
    (host : gostring) (port : Z) (fate : error) (methods : list byte)
    (rsv l : byte) (name : list byte) (p1 p2 : byte) (rest : list byte)
    (e : error) :
  1 <= len methods <= 255 -> 1 <= len name -> int_of_byte l = len name ->
  blocked (Filter_Matches DomainFilter name) = false ->
  net_Dial (JoinHostPort name (strconv.Itoa (256 * int_of_byte p1 + int_of_byte p2)))
  = Refused e ->
  exists ctx',
    processClient_handshake Logger DomainFilter [] ReportIP
      (new_session host port
         {| pending := greeting methods
                       ++ connect_request rsv x03 (l :: name) p1 p2 ++ rest;
            closing := fate |}
         (new_Writer false))
    = Ok (OutboundFailed ctx' e) /\
    wire (Connection.Writer (Client ctx'))
    = [x05; x00] ++ [x05; x01] ++ [rsv; x03; l] ++ name ++ [x00; x00] /\
    unflushed (Connection.Writer (Client ctx')) = [].
Proof.
  intros Hm Hname Hl Hfree Hdial. unfold processClient_handshake.
  rewrite processInbound_domain_run by assumption.
  cbn [parsed Remote Connection.Host Connection.with_Host Connection.with_Port].
  rewrite Hfree. unfold processOutbound. change (len (@nil ProxyInfo.t) =? 0) with true.
  cbv iota. unfold processOutbound_direct.
  cbn [parsed Remote Connection.Host Connection.Port Connection.with_Host
       Connection.with_Port].
  rewrite Hdial. unfold reply_general_error.
  cbn [Client parsed RequestData Connection.Writer Connection.with_Writer
       Connection.with_Reader].
  rewrite Writer_send_unchecked_healthy.
  eexists. split; [reflexivity|].
  cbn [Client with_Client Connection.Writer Connection.with_Writer wire unflushed
       concat app].
  rewrite ?app_nil_r, <- ?app_assoc. repeat split.
Qed.

End Client.

Lemma processClient_blacklisted_domain_witness :
  exists ctx',
    @processClient_handshake (scenario.answering [] 40000) scenario.ascii_tables true
      {| Domains := [ {| Name := str "badhost.com"; Hits := 0 |} ]; FileName := [] |}
      [] [xcb; x00; x71; x07]
      (new_session (str "192.0.2.1") 50000
         {| pending := greeting [x00]
                       ++ connect_request x00 x03 (x0f :: str "www.BadHost.com")
                            x01 xbb ++ [];
            closing := io_EOF |}
         (new_Writer false))
    = Ok (Blacklisted ctx') /\
    wire (Connection.Writer (Client ctx')) = [x05; x00].
Proof.
  destruct (@processClient_blacklisted_domain scenario.ascii_tables
              (scenario.answering [] 40000) true
              {| Domains := [ {| Name := str "badhost.com"; Hits := 0 |} ];
                 FileName := [] |}
              [] [xcb; x00; x71; x07] (str "192.0.2.1") 50000 io_EOF [x00] x00 x0f
              (str "www.BadHost.com") x01 xbb []
              {| Name := str "badhost.com"; Hits := 0 |})
    as (ctx' & Hrun & Hwire & _).
  - unfold len. simpl. lia.
  - unfold len. simpl. lia.
  - reflexivity.
  - left.
  - exists (str "www."). reflexivity.
  - exists ctx'. split; [exact Hrun|exact Hwire].
Defined.

Lemma processClient_direct_domain_witness :
  exists ctx',
    @processClient_handshake (scenario.answering [] 40000) scenario.ascii_tables true
      scenario.empty_filter [] [xcb; x00; x71; x07]
      (new_session (str "192.0.2.1") 50000
         {| pending := greeting [x00]
                       ++ connect_request x00 x03 (x07 :: str "example") x01 xbb ++ [];
            closing := io_EOF |}
         (new_Writer false))
    = Ok (Opened ctx') /\
    wire (Connection.Writer (Client ctx'))
    = [x05; x00] ++ [x05; x00; x00; x01] ++ [xcb; x00; x71; x07] ++ [x9c; x40].
Proof.
  destruct (@processClient_direct_domain scenario.ascii_tables
              (scenario.answering [] 40000) true scenario.empty_filter
              [xcb; x00; x71; x07] (str "192.0.2.1") 50000 io_EOF [x00] x00 x07
              (str "example") x01 xbb []
              {| pending := []; closing := io_EOF |} (new_Writer false) 40000)
    as (ctx' & Hrun & Hwire & _).
  - unfold len. simpl. lia.
  - unfold len. simpl. lia.
  - reflexivity.
  - reflexivity.
  - reflexivity.
  - reflexivity.
  - exists ctx'. split; [exact Hrun|exact Hwire].
Defined.

Lemma processClient_direct_refused_witness :
  exists ctx',
    @processClient_handshake scenario.unreachable scenario.ascii_tables true
      scenario.empty_filter [] [xcb; x00; x71; x07]
      (new_session (str "192.0.2.1") 50000
         {| pending := greeting [x00]
                       ++ connect_request x00 x03 (x07 :: str "example") x01 xbb ++ [];
            closing := io_EOF |}
         (new_Writer false))
    = Ok (OutboundFailed ctx' transport_error) /\
    wire (Connection.Writer (Client ctx'))
    = [x05; x00] ++ [x05; x01] ++ [x00; x03; x07] ++ str "example" ++ [x00; x00].
Proof.
  destruct (@processClient_direct_refused scenario.ascii_tables scenario.unreachable
              true scenario.empty_filter [xcb; x00; x71; x07] (str "192.0.2.1") 50000
              io_EOF [x00] x00 x07 (str "example") x01 xbb [] transport_error)
    as (ctx' & Hrun & Hwire & _).
  - unfold len. simpl. lia.
  - unfold len. simpl. lia.
  - reflexivity.
  - reflexivity.
  - reflexivity.
  - exists ctx'. split; [exact Hrun|exact Hwire].
Defined.

(** ** Splice, further *)

Lemma CopyData_counts_until_EOF_witness :
  exists ctx' other',
    CopyData_loop 2 zero_Connection
      (Connection.with_Reader zero_Connection
         {| pending := [x01; x02; x03]; closing := io_EOF |})
    = Some (ctx', other') /\
    Connection.ReadCount other' = 3.
Proof.
  destruct (CopyData_counts_until_EOF zero_Connection
              (Connection.with_Reader zero_Connection
                 {| pending := [x01; x02; x03]; closing := io_EOF |}))
    as (ctx' & other' & Hrun & _ & Hcount).
  - reflexivity.
  - reflexivity.
  - reflexivity.
  - simpl. lia.
  - exists ctx', other'. split; [exact Hrun|exact Hcount].
Defined.
